(** * Folder synchronization: a shallow embedding of [synchronization.py]

    The program mirrors a source directory tree into a replica directory
    tree.  This development embeds its functions ([get_dir_content],
    [calculate_hash], [same_files], [log], [synchronize_file],
    [synchronize_dir], [src_to_rep], [rep_to_src], [synchronize])
    together with the operating-system primitives they call, and states
    the properties of the specification over that embedding.

    The source tree and the replica tree are two disjoint trees.  The
    program only reads the source, so a source path is represented by
    the node it denotes; the replica is the mutable state, addressed by
    paths relative to its root.  A function returns its result with the
    state it leaves, or the exception it raises with the state reached.

    For the statement that no exception is caught, the same functions
    are embedded once more ([same_files_env], [synchronize_file_env],
    ..., [synchronize_env]) in an environment that can fail any call of
    a primitive at any time; where the environment lets every call
    through, the two embeddings end alike ([synchronize_env_agrees]). *)

From Stdlib Require Import List Strings.String Strings.Ascii Strings.Byte NArith Arith Lia Bool.
Import ListNotations.
Local Open Scope string_scope.
Local Open Scope list_scope.
Set Warnings "-register-all".

(** ** [hashlib.md5]

    The digest the program compares is MD5 (RFC 1321): 32-bit words are
    kept in [N] with the wrap-around written out. *)

Module MD5.
Local Open Scope N_scope.

Definition mask32 : N := 4294967295.
Definition add32 (x y : N) : N := (x + y) mod 4294967296.
Definition not32 (x : N) : N := N.lxor (N.land x mask32) mask32.
Definition rotl32 (x s : N) : N :=
  N.lor (N.land (N.shiftl x s) mask32) (N.shiftr (N.land x mask32) (32 - s)).

Definition K : list N :=
  [ 3614090360; 3905402710; 606105819; 3250441966;
    4118548399; 1200080426; 2821735955; 4249261313;
    1770035416; 2336552879; 4294925233; 2304563134;
    1804603682; 4254626195; 2792965006; 1236535329;
    4129170786; 3225465664; 643717713; 3921069994;
    3593408605; 38016083; 3634488961; 3889429448;
    568446438; 3275163606; 4107603335; 1163531501;
    2850285829; 4243563512; 1735328473; 2368359562;
    4294588738; 2272392833; 1839030562; 4259657740;
    2763975236; 1272893353; 4139469664; 3200236656;
    681279174; 3936430074; 3572445317; 76029189;
    3654602809; 3873151461; 530742520; 3299628645;
    4096336452; 1126891415; 2878612391; 4237533241;
    1700485571; 2399980690; 4293915773; 2240044497;
    1873313359; 4264355552; 2734768916; 1309151649;
    4149444226; 3174756917; 718787259; 3951481745 ].

Definition S : list N :=
  [ 7; 12; 17; 22; 7; 12; 17; 22; 7; 12; 17; 22; 7; 12; 17; 22;
    5; 9; 14; 20; 5; 9; 14; 20; 5; 9; 14; 20; 5; 9; 14; 20;
    4; 11; 16; 23; 4; 11; 16; 23; 4; 11; 16; 23; 4; 11; 16; 23;
    6; 10; 15; 21; 6; 10; 15; 21; 6; 10; 15; 21; 6; 10; 15; 21 ].

(** Four chaining words [A, B, C, D]. *)
Record words := Words { wa : N; wb : N; wc : N; wd : N }.

Definition init : words := Words 1732584193 4023233417 2562383102 271733878.

(** Little-endian decoding of four bytes into one word. *)
Definition le_word (bs : list N) : N :=
  nth 0 bs 0 + 256 * nth 1 bs 0 + 65536 * nth 2 bs 0 + 16777216 * nth 3 bs 0.

Fixpoint le_words (n : nat) (bs : list N) : list N :=
  match n with
  | O => []
  | Datatypes.S n' => le_word (firstn 4 bs) :: le_words n' (skipn 4 bs)
  end.

Definition round (M : list N) (i : nat) (w : words) : words :=
  let '(Words a b c d) := w in
  let '(f, g) :=
    if Nat.ltb i 16 then (N.lor (N.land b c) (N.land (not32 b) d), i)
    else if Nat.ltb i 32 then
      (N.lor (N.land d b) (N.land (not32 d) c), Nat.modulo (5 * i + 1) 16)
    else if Nat.ltb i 48 then
      (N.lxor (N.lxor b c) d, Nat.modulo (3 * i + 5) 16)
    else (N.lxor c (N.lor b (not32 d)), Nat.modulo (7 * i) 16) in
  let f' := add32 (add32 (add32 f a) (nth i K 0)) (nth g M 0) in
  Words d (add32 b (rotl32 f' (nth i S 0))) b c.

Definition block (w : words) (bs : list N) : words :=
  let M := le_words 16 bs in
  let w' := fold_left (fun acc i => round M i acc) (seq 0 64) w in
  Words (add32 (wa w) (wa w')) (add32 (wb w) (wb w'))
        (add32 (wc w) (wc w')) (add32 (wd w) (wd w')).

Fixpoint blocks (n : nat) (w : words) (bs : list N) : words :=
  match n with
  | O => w
  | Datatypes.S n' => blocks n' (block w (firstn 64 bs)) (skipn 64 bs)
  end.

Fixpoint le_bytes (n : nat) (x : N) : list N :=
  match n with
  | O => []
  | Datatypes.S n' => x mod 256 :: le_bytes n' (x / 256)
  end.

Definition pad (bs : list N) : list N :=
  let len := List.length bs in
  let zeros := Nat.modulo (64 + 55 - Nat.modulo len 64) 64 in
  bs ++ 128 :: repeat 0 zeros
     ++ le_bytes 8 ((8 * N.of_nat len) mod 18446744073709551616).

Definition compress (data : list byte) : words :=
  let p := pad (map Byte.to_N data) in
  blocks (Nat.div (List.length p) 64) init p.

Definition digest (data : list byte) : list N :=
  let w := compress data in
  le_bytes 4 (wa w) ++ le_bytes 4 (wb w) ++ le_bytes 4 (wc w)
    ++ le_bytes 4 (wd w).

Definition hex_digit (n : N) : ascii :=
  nth (N.to_nat n)
      (list_ascii_of_string "0123456789abcdef") "0"%char.

Definition hex_byte (b : N) (rest : string) : string :=
  String (hex_digit (b / 16)) (String (hex_digit (b mod 16)) rest).

(** [hashlib.md5(data).hexdigest()] *)
Definition hexdigest (data : list byte) : string :=
  fold_right hex_byte EmptyString (digest data).

End MD5.

Arguments MD5.hexdigest : simpl never.
Arguments MD5.digest : simpl never.
Opaque MD5.compress MD5.digest MD5.hexdigest.

Definition bytes_of (s : string) : list byte := list_byte_of_string s.


(** ** Directory trees

    A directory entry is a regular file with its bytes, a directory with
    its named children in listing order, a special file (a named pipe or
    a socket: something that exists but is neither a regular file nor a
    directory), or a dangling symbolic link.  A dangling link is listed
    by its directory, but [os.stat] finds nothing behind it.  A tree
    does not record where a link points: a write through a dangling
    link is answered as for a link whose target's directory is missing,
    and the theorems on what a run leaves untouched elsewhere assume
    that the replica has no dangling link where the run can write
    ([link_free_at]).  Symbolic links that resolve are outside the
    model. *)

Definition path := list string.

Inductive node :=
| File (content : list byte)
| Dir (entries : list (string * node))
| Special
| Dangling.

Definition entry := (string * node)%type.

Fixpoint child (es : list entry) (name : string) : option node :=
  match es with
  | [] => None
  | (k, n) :: es' => if String.eqb k name then Some n else child es' name
  end.

Definition unlink (name : string) (es : list entry) : list entry :=
  filter (fun e => negb (String.eqb (fst e) name)) es.

Fixpoint put (name : string) (n : node) (es : list entry) : list entry :=
  match es with
  | [] => [(name, n)]
  | (k, m) :: es' =>
      if String.eqb k name then (k, n) :: es' else (k, m) :: put name n es'
  end.

(** The entries of a directory after its entry [x] is bound to [v]. *)
Definition bound (x : string) (v : option node) (es : list entry)
    : list entry :=
  match v with Some m => put x m es | None => unlink x es end.

(** The node a path denotes below [n]; a path that runs through a
    non-directory denotes nothing. *)
Fixpoint lookup (n : node) (p : path) : option node :=
  match p with
  | [] => Some n
  | x :: q =>
      match n with
      | Dir es => match child es x with
                  | Some c => lookup c q
                  | None => None
                  end
      | _ => None
      end
  end.

Definition is_file (o : option node) : bool :=
  match o with Some (File _) => true | _ => false end.

Definition is_dir (o : option node) : bool :=
  match o with Some (Dir _) => true | _ => false end.

Definition is_some (o : option node) : bool :=
  match o with Some _ => true | None => false end.

(** [os.stat] follows symbolic links: it finds nothing behind a dangling
    one.  [os.path.exists], [os.path.isfile], [os.path.isdir] and
    [os.path.getsize] all go through it. *)
Definition os_stat (o : option node) : option node :=
  match o with Some Dangling => None | _ => o end.

(** Python's [OSError] subclasses raised by the primitives. *)
Inductive error :=
| FileNotFoundError
| IsADirectoryError
| NotADirectoryError
| FileExistsError
| SpecialFileError
| PermissionError
| OtherOSError.

Inductive outcome :=
| Done (n : node)
| Fail (e : error).

(** [write n p v] binds the last component of [p] to [v] ([None] unlinks
    it).  A missing intermediate component is [ENOENT], one that is not a
    directory is [ENOTDIR]; the root is not an entry of any directory. *)
Fixpoint write (n : node) (p : path) (v : option node) : outcome :=
  match p with
  | [] => Fail OtherOSError
  | x :: q =>
      match n with
      | Dir es =>
          match q with
          | [] => Done (Dir (bound x v es))
          | _ :: _ =>
              match child es x with
              | Some c => match write c q v with
                          | Done c' => Done (Dir (put x c' es))
                          | Fail e => Fail e
                          end
              | None => Fail FileNotFoundError
              end
          end
      | Dangling => Fail FileNotFoundError
      | _ => Fail NotADirectoryError
      end
  end.

(** A chain of fresh empty directories, one per remaining component. *)
Fixpoint fresh_dirs (p : path) : node :=
  match p with
  | [] => Dir []
  | x :: q => Dir [(x, fresh_dirs q)]
  end.

(** [os.makedirs]: creates the leaf and every missing intermediate
    directory; the leaf must not exist yet. *)
Fixpoint mkdirs (n : node) (p : path) : outcome :=
  match p with
  | [] => Fail FileExistsError
  | x :: q =>
      match n with
      | Dir es =>
          match child es x with
          | Some c => match mkdirs c q with
                      | Done c' => Done (Dir (put x c' es))
                      | Fail e => Fail e
                      end
          | None => Done (Dir (put x (fresh_dirs q) es))
          end
      | Dangling => Fail FileNotFoundError
      | _ => Fail NotADirectoryError
      end
  end.

(** [subst n P m] is [n] with the node at [P] replaced by [m]. *)
Fixpoint subst (n : node) (P : path) (m : node) : node :=
  match P with
  | [] => m
  | x :: Q =>
      match n with
      | Dir es => match child es x with
                  | Some c => Dir (put x (subst c Q m) es)
                  | None => n
                  end
      | _ => n
      end
  end.

(** ** Predicates on trees *)

Definition is_special (o : option node) : bool :=
  match o with Some Special => true | _ => false end.

Fixpoint distinct (l : list string) : bool :=
  match l with
  | [] => true
  | x :: l' => negb (existsb (String.eqb x) l') && distinct l'
  end.

(** Every directory lists each name once. *)
Fixpoint well_formed (n : node) : bool :=
  match n with
  | Dir es =>
      distinct (map fst es)
      && forallb (fun e => let '(_, c) := e in well_formed c) es
  | _ => true
  end.

(** What the change detector compares: byte length and MD5 digest. *)
Definition identical (c c' : list byte) : bool :=
  Nat.eqb (List.length c) (List.length c')
  && String.eqb (MD5.hexdigest c) (MD5.hexdigest c').

(** No type conflict: wherever source and replica both have an entry,
    both are regular files or both are directories; source entries that
    are neither constrain nothing. *)
Fixpoint compatible (src rep : node) : bool :=
  match src with
  | File _ => match rep with File _ => true | _ => false end
  | Dir ses =>
      match rep with
      | Dir res =>
          forallb (fun e => let '(name, s) := e in
                            match child res name with
                            | Some r => compatible s r
                            | None => true
                            end) ses
      | _ => false
      end
  | Special | Dangling => true
  end.

(** The replica holds every regular file and directory of the source,
    with the same type and, for files, the same length and digest. *)
Fixpoint mirrored (src rep : node) : bool :=
  match src with
  | File c => match rep with File c' => identical c c' | _ => false end
  | Dir ses =>
      match rep with
      | Dir res =>
          forallb (fun e => let '(name, s) := e in
                            match s with
                            | Special | Dangling => true
                            | _ => match child res name with
                                   | Some r => mirrored s r
                                   | None => false
                                   end
                            end) ses
      | _ => false
      end
  | Special | Dangling => true
  end.

(** No regular file of the tree has zero length. *)
Fixpoint no_empty_file (n : node) : bool :=
  match n with
  | File c => negb (Nat.eqb (List.length c) 0)
  | Dir es => forallb (fun e => let '(_, c) := e in no_empty_file c) es
  | Special | Dangling => true
  end.

Fixpoint is_prefix (p q : path) : bool :=
  match p with
  | [] => true
  | x :: p' => match q with
               | [] => false
               | y :: q' => String.eqb x y && is_prefix p' q'
               end
  end.

(** ** Program state and the exception monad

    The replica tree is the only mutable part of the file system; the
    log file is the list of the lines written so far, kept as (action,
    path) pairs; [reads] counts the whole-file reads performed.  An
    exception carries the state reached when it was raised. *)

Record state := mkState {
  replica : node;
  logged : list (string * path);
  reads : nat
}.

Inductive result (A : Type) :=
| Ok (a : A) (s : state)
| Raise (e : error) (s : state).
Arguments Ok {A} a s.
Arguments Raise {A} e s.

Definition io (A : Type) := state -> result A.

Definition ret {A : Type} (a : A) : io A := fun s => Ok a s.
Definition bind {A B : Type} (m : io A) (k : A -> io B) : io B :=
  fun s => match m s with
           | Ok a s' => k a s'
           | Raise e s' => Raise e s'
           end.

Notation "x <- m ;; k" := (bind m (fun x => k))
  (at level 61, m at next level, right associativity).
Notation "m ;; k" := (bind m (fun _ => k))
  (at level 61, right associativity).

(** A [for] loop: the first exception ends it. *)
Fixpoint for_each {A : Type} (body : A -> io unit) (l : list A) : io unit :=
  match l with
  | [] => ret tt
  | x :: l' => body x ;; for_each body l'
  end.

(** A path argument of the program is either a path of the source tree,
    which the program only reads and which is represented by what it
    denotes, or a path of the replica tree relative to the replica
    root. *)
Inductive location :=
| InSource (o : option node)
| InReplica (p : path).

Definition resolve (l : location) (s : state) : option node :=
  match l with
  | InSource o => o
  | InReplica p => lookup (replica s) p
  end.

(** [os.path.join(path, name)] *)
Definition join (l : location) (name : string) : location :=
  match l with
  | InSource o =>
      InSource (match o with Some n => lookup n [name] | None => None end)
  | InReplica p => InReplica (p ++ [name])
  end.

Definition set_replica (r : node) (s : state) : state :=
  mkState r (logged s) (reads s).

(** The state after the directory at [P] has been given the entries
    [es]. *)
Definition with_dir (P : path) (es : list entry) (s : state) : state :=
  set_replica (subst (replica s) P (Dir es)) s.

Definition lift (o : outcome) : io unit :=
  fun s => match o with
           | Done r => Ok tt (set_replica r s)
           | Fail e => Raise e s
           end.

(** ** Calls that the environment can fail

    Beyond what the shape of the two trees decides, a call of a
    primitive can fail for a reason of the environment: permission
    denied, a full disk, a path that another process took away.  [call]
    names the calls that can fail so; [os.path.exists], [os.path.isfile]
    and [os.path.isdir] are not among them, since they answer [False]
    where [os.stat] fails. *)

Inductive call :=
| Listdir (l : location)
| Getsize (l : location)
| ReadBytes (l : location)
| Remove (p : path)
| OpenW (p : path)
| Copy2 (src : location) (dst : path)
| Makedirs (p : path)
| Rmtree (p : path)
| WriteLog (action : string) (p : path).

(** A run that counts the calls made so far: it returns with a value,
    a state and the count, or raises in a state. *)
Inductive answer (A : Type) :=
| Returned (a : A) (s : state) (t : nat)
| Raised (e : error) (s : state).
Arguments Returned {A} a s t.
Arguments Raised {A} e s.

Definition sys (A : Type) := nat -> state -> answer A.

Definition sys_ret {A : Type} (a : A) : sys A := fun t s => Returned a s t.
Definition sys_bind {A B : Type} (m : sys A) (k : A -> sys B) : sys B :=
  fun t s => match m t s with
             | Returned a s' t' => k a t' s'
             | Raised e s' => Raised e s'
             end.

Declare Scope sys_scope.
Notation "x <- m ;; k" := (sys_bind m (fun x => k))
  (at level 61, m at next level, right associativity) : sys_scope.
Notation "m ;; k" := (sys_bind m (fun _ => k))
  (at level 61, right associativity) : sys_scope.

Fixpoint sys_for_each {A : Type} (body : A -> sys unit) (l : list A)
    : sys unit :=
  match l with
  | [] => sys_ret tt
  | x :: l' => sys_bind (body x) (fun _ => sys_for_each body l')
  end.

Section Synchronization.

Set Default Proof Using "Type".

(** [st_size] of a directory depends on the file system that holds it;
    a named pipe or a socket reports 0. *)
Variable dir_st_size : list entry -> nat.

Definition st_size (n : node) : nat :=
  match n with
  | File c => List.length c
  | Dir es => dir_st_size es
  | Special | Dangling => 0
  end.

(** *** Operating-system primitives *)

Definition path_exists (l : location) : io bool :=
  fun s => Ok (is_some (os_stat (resolve l s))) s.

Definition isfile (l : location) : io bool :=
  fun s => Ok (is_file (os_stat (resolve l s))) s.

Definition isdir (l : location) : io bool :=
  fun s => Ok (is_dir (os_stat (resolve l s))) s.

Definition getsize (l : location) : io nat :=
  fun s => match os_stat (resolve l s) with
           | Some n => Ok (st_size n) s
           | None => Raise FileNotFoundError s
           end.

(** [open(path, 'rb').read()].  The program reads regular files only;
    on a special file the model raises (a socket cannot be opened, and
    the blocking read of a named pipe is not expressed). *)
Definition read_bytes (l : location) : io (list byte) :=
  fun s => match resolve l s with
           | Some (File c) => Ok c (mkState (replica s) (logged s) (S (reads s)))
           | Some (Dir _) => Raise IsADirectoryError s
           | Some Special => Raise OtherOSError s
           | Some Dangling | None => Raise FileNotFoundError s
           end.

(** [os.remove]: unlinks anything but a directory, a dangling link
    included. *)
Definition os_remove (p : path) : io unit :=
  fun s => match lookup (replica s) p with
           | Some (Dir _) => Raise IsADirectoryError s
           | Some _ => lift (write (replica s) p None) s
           | None => Raise FileNotFoundError s
           end.

(** [open(path, 'w').close()]: creates or truncates a regular file.
    The real call follows a dangling link and creates the link's target
    when the target's directory exists; the tree does not record where
    a link points, and the answer given here is the one for a link whose
    target's directory is missing.  The theorems on what a run leaves
    untouched elsewhere therefore assume a replica without dangling
    links ([link_free]). *)
Definition open_w (p : path) : io unit :=
  fun s => match lookup (replica s) p with
           | Some (Dir _) => Raise IsADirectoryError s
           | Some Special => Raise OtherOSError s
           | Some Dangling => Raise FileNotFoundError s
           | Some (File _) | None => lift (write (replica s) p (Some (File []))) s
           end.

(** [shutil.copy2(src, dst)]: a destination that is a directory receives
    the file under the source's base name; [copyfile] refuses a named
    pipe on either side before it opens the source for reading and the
    destination for writing.  A destination that is a dangling link is
    treated as in [open_w].  Metadata is not part of the model. *)
Definition copy2 (src : location) (basename : string) (dst : path) : io unit :=
  fun s =>
    let dst' := if is_dir (lookup (replica s) dst)
                then dst ++ [basename] else dst in
    if is_special (resolve src s) || is_special (lookup (replica s) dst')
    then Raise SpecialFileError s
    else
      match os_stat (resolve src s) with
      | Some (File c) =>
          match lookup (replica s) dst' with
          | Some (Dir _) => Raise IsADirectoryError s
          | Some Dangling => Raise FileNotFoundError s
          | _ => lift (write (replica s) dst' (Some (File c))) s
          end
      | Some _ => Raise IsADirectoryError s
      | None => Raise FileNotFoundError s
      end.

(** [os.makedirs] *)
Definition makedirs (p : path) : io unit :=
  fun s => lift (mkdirs (replica s) p) s.

(** [shutil.rmtree]: refuses a symbolic link. *)
Definition rmtree (p : path) : io unit :=
  fun s => match lookup (replica s) p with
           | Some (Dir _) => lift (write (replica s) p None) s
           | Some Dangling => Raise OtherOSError s
           | Some _ => Raise NotADirectoryError s
           | None => Raise FileNotFoundError s
           end.

(** *** The program *)

(** [os.listdir] *)
Definition get_dir_content (l : location) : io (list string) :=
  fun s => match os_stat (resolve l s) with
           | Some (Dir es) => Ok (map fst es) s
           | Some _ => Raise NotADirectoryError s
           | None => Raise FileNotFoundError s
           end.

Definition calculate_hash (file_path : location) : io string :=
  data <- read_bytes file_path ;;
  ret (MD5.hexdigest data).

Definition same_files (src_path rep_path : location) : io bool :=
  size_src <- getsize src_path ;;
  size_rep <- getsize rep_path ;;
  if negb (Nat.eqb size_src size_rep) then ret false
  else
    hash_src <- calculate_hash src_path ;;
    hash_rep <- calculate_hash rep_path ;;
    ret (String.eqb hash_src hash_rep).

Definition log (action : string) (file_path : path) : io unit :=
  fun s => Ok tt (mkState (replica s) (logged s ++ [(action, file_path)]) (reads s)).

(** [src_file] is the joined source path [os.path.join(src_path, file)],
    handed over by the caller's iteration. *)
Definition synchronize_file (src_file : location) (rep_path : path)
    (file : string) : io unit :=
  let rep_file := rep_path ++ [file] in
  size <- getsize src_file ;;
  if Nat.eqb size 0 then
    present <- path_exists (InReplica rep_file) ;;
    (if present then os_remove rep_file else ret tt) ;;
    open_w rep_file ;;
    log "Created empty file" rep_file
  else
    present <- path_exists (InReplica rep_file) ;;
    if negb present then
      copy2 src_file file rep_file ;;
      log "Created" rep_file
    else
      same <- same_files src_file (InReplica rep_file) ;;
      if negb same then
        copy2 src_file file rep_file ;;
        log "Updated" rep_file
      else ret tt.

(** [synchronize_dir] with its recursive call into [src_to_rep] left
    open, so that [src_to_rep] can be defined by structural recursion on
    the source tree. *)
Definition synchronize_dir_with (src_to_rep : node -> path -> io unit)
    (src_dir : node) (rep_path : path) (dir : string) : io unit :=
  let rep_dir := rep_path ++ [dir] in
  present <- path_exists (InReplica rep_dir) ;;
  (if negb present then
     makedirs rep_dir ;;
     log "Created directory" rep_dir
   else ret tt) ;;
  src_to_rep src_dir rep_dir.

Definition sync_item_with (src_to_rep : node -> path -> io unit)
    (rep_path : path) (it : entry) : io unit :=
  let '(item, item_path) := it in
  f <- isfile (InSource (Some item_path)) ;;
  if f then synchronize_file (InSource (Some item_path)) rep_path item
  else
    d <- isdir (InSource (Some item_path)) ;;
    if d then synchronize_dir_with src_to_rep item_path rep_path item
    else ret tt.

(** The listing of the source directory is taken with the nodes that
    the names denote, so that the recursion into a subdirectory is
    structural; on anything but a directory the listing raises. *)
Fixpoint src_to_rep (src_path : node) (rep_path : path) {struct src_path}
    : io unit :=
  match src_path with
  | Dir src_lst => for_each (sync_item_with src_to_rep rep_path) src_lst
  | _ => get_dir_content (InSource (Some src_path)) ;; ret tt
  end.

Definition synchronize_dir (src_dir : node) (rep_path : path) (dir : string)
    : io unit :=
  synchronize_dir_with src_to_rep src_dir rep_path dir.

(** The body of the loop of [src_to_rep]. *)
Definition sync_item (rep_path : path) (it : entry) : io unit :=
  sync_item_with src_to_rep rep_path it.

(** The body of the loop of [rep_to_src]. *)
Definition prune_item (src_path : node) (rep_path : path) (item : string)
    : io unit :=
  let src_item := join (InSource (Some src_path)) item in
  let rep_item := rep_path ++ [item] in
  present <- path_exists src_item ;;
  if negb present then
    f <- isfile (InReplica rep_item) ;;
    if f then
      os_remove rep_item ;;
      log "Deleted" rep_item
    else
      d <- isdir (InReplica rep_item) ;;
      if d then
        rmtree rep_item ;;
        log "Deleted" rep_item
      else ret tt
  else ret tt.

Definition rep_to_src (src_path : node) (rep_path : path) : io unit :=
  rep_lst <- get_dir_content (InReplica rep_path) ;;
  for_each (prune_item src_path rep_path) rep_lst.

Definition synchronize (src_path : node) (rep_path : path) : io unit :=
  src_to_rep src_path rep_path ;;
  rep_to_src src_path rep_path.

(** *** What [synchronize_file] makes of a directory

    The entries of the replica directory, and the lines logged, after a
    regular source file with content [c] has been synchronized to the
    entry [x] of a directory with entries [es] that holds no directory
    and no special file under that name. *)

Definition file_synced (c : list byte) (x : string) (es : list entry)
    : list entry :=
  if Nat.eqb (List.length c) 0 then put x (File []) (unlink x es)
  else match child es x with
       | Some (File c') => if identical c c' then es else put x (File c) es
       | _ => put x (File c) es
       end.

Definition file_events (c : list byte) (P : path) (x : string)
    (es : list entry) : list (string * path) :=
  if Nat.eqb (List.length c) 0 then [("Created empty file", P ++ [x])]
  else match child es x with
       | Some (File c') =>
           if identical c c' then [] else [("Updated", P ++ [x])]
       | _ => [("Created", P ++ [x])]
       end.

(** *** What Pass 1 establishes

    [src_to_rep] run on a source directory with entries [ses] against
    the replica directory [Dir res] at [P] ends normally, rewrites the
    tree below [P] only, leaves a directory that mirrors the source, and
    does not touch the entries whose names the source does not list. *)

Definition pass1_post (ses : list entry) (P : path) (res : list entry)
    (s s' : state) : Prop :=
  exists res',
    replica s' = subst (replica s) P (Dir res')
    /\ mirrored (Dir ses) (Dir res') = true
    /\ forall y, ~ In y (map fst ses) -> child res' y = child res y.

Definition pass1_spec (src : node) : Prop :=
  match src with
  | Dir ses =>
      forall P s res,
        lookup (replica s) P = Some (Dir res) ->
        well_formed src = true ->
        compatible src (Dir res) = true ->
        exists s', src_to_rep src P s = Ok tt s' /\ pass1_post ses P res s s'
  | _ => True
  end.

(** *** What Pass 2 makes of a directory

    An entry is deleted when [os.path.exists] finds nothing under its
    name in the source and it is a regular file or a directory.  [pruned] and [prune_events]
    follow the loop of [rep_to_src] over the listing [l]. *)

Definition deletable (src : node) (o : option node) (y : string) : bool :=
  negb (is_some (os_stat (lookup src [y]))) && (is_file o || is_dir o).

Fixpoint pruned (src : node) (l : list string) (cur : list entry)
    : list entry :=
  match l with
  | [] => cur
  | y :: l' =>
      pruned src l'
        (if deletable src (child cur y) y then unlink y cur else cur)
  end.

Fixpoint prune_events (src : node) (P : path) (l : list string)
    (cur : list entry) : list (string * path) :=
  match l with
  | [] => []
  | y :: l' =>
      if deletable src (child cur y) y
      then ("Deleted", P ++ [y]) :: prune_events src P l' (unlink y cur)
      else prune_events src P l' cur
  end.

(** The events logged for [target] or for a path below it. *)
Definition events_under (target : path) (evs : list (string * path))
    : list (string * path) :=
  filter (fun ev => is_prefix target (snd ev)) evs.

(** *** A synchronized directory is left alone

    Run against a replica directory that already mirrors a source
    without zero-length files, [src_to_rep] changes neither the replica
    nor the log. *)

Definition pass1_idle_spec (src : node) : Prop :=
  match src with
  | Dir ses =>
      forall P s res,
        lookup (replica s) P = Some (Dir res) ->
        mirrored src (Dir res) = true ->
        no_empty_file src = true ->
        exists s',
          src_to_rep src P s = Ok tt s'
          /\ replica s' = replica s /\ logged s' = logged s
  | _ => True
  end.

(** *** The program in an environment that can fail

    [fault t c s] is what the environment decides for the call [c] made
    in state [s] when [t] calls have been made before it: [Some (e, s')]
    lets the call raise [e] and leave the state [s'] (a copy cut short
    by a full disk leaves part of its effect), [None] lets the call go
    the way the two trees determine.  Nothing is assumed about
    [fault]. *)
Variable fault : nat -> call -> state -> option (error * state).

Definition primitive {A : Type} (c : call) (m : io A) : sys A :=
  fun t s =>
    match fault t c s with
    | Some (e, s') => Raised e s'
    | None => match m s with
              | Ok a s' => Returned a s' (S t)
              | Raise e s' => Raised e s'
              end
    end.

(** [os.path.exists], [os.path.isfile], [os.path.isdir] *)
Definition test (m : io bool) : sys bool :=
  fun t s => match m s with
             | Ok b s' => Returned b s' t
             | Raise e s' => Raised e s'
             end.

Definition getsize_env (l : location) : sys nat :=
  primitive (Getsize l) (getsize l).
Definition read_bytes_env (l : location) : sys (list byte) :=
  primitive (ReadBytes l) (read_bytes l).
Definition os_remove_env (p : path) : sys unit :=
  primitive (Remove p) (os_remove p).
Definition open_w_env (p : path) : sys unit :=
  primitive (OpenW p) (open_w p).
Definition copy2_env (src : location) (basename : string) (dst : path)
    : sys unit :=
  primitive (Copy2 src dst) (copy2 src basename dst).
Definition makedirs_env (p : path) : sys unit :=
  primitive (Makedirs p) (makedirs p).
Definition rmtree_env (p : path) : sys unit :=
  primitive (Rmtree p) (rmtree p).

Local Open Scope sys_scope.

Definition get_dir_content_env (l : location) : sys (list string) :=
  primitive (Listdir l) (get_dir_content l).

Definition calculate_hash_env (file_path : location) : sys string :=
  data <- read_bytes_env file_path ;;
  sys_ret (MD5.hexdigest data).

Definition same_files_env (src_path rep_path : location) : sys bool :=
  size_src <- getsize_env src_path ;;
  size_rep <- getsize_env rep_path ;;
  if negb (Nat.eqb size_src size_rep) then sys_ret false
  else
    hash_src <- calculate_hash_env src_path ;;
    hash_rep <- calculate_hash_env rep_path ;;
    sys_ret (String.eqb hash_src hash_rep).

(** The line goes to the console and to the log file, which is opened
    for appending at every call. *)
Definition log_env (action : string) (file_path : path) : sys unit :=
  primitive (WriteLog action file_path) (log action file_path).

Definition synchronize_file_env (src_file : location) (rep_path : path)
    (file : string) : sys unit :=
  let rep_file := rep_path ++ [file] in
  size <- getsize_env src_file ;;
  if Nat.eqb size 0 then
    present <- test (path_exists (InReplica rep_file)) ;;
    (if present then os_remove_env rep_file else sys_ret tt) ;;
    open_w_env rep_file ;;
    log_env "Created empty file" rep_file
  else
    present <- test (path_exists (InReplica rep_file)) ;;
    if negb present then
      copy2_env src_file file rep_file ;;
      log_env "Created" rep_file
    else
      same <- same_files_env src_file (InReplica rep_file) ;;
      if negb same then
        copy2_env src_file file rep_file ;;
        log_env "Updated" rep_file
      else sys_ret tt.

Definition synchronize_dir_with_env (src_to_rep : node -> path -> sys unit)
    (src_dir : node) (rep_path : path) (dir : string) : sys unit :=
  let rep_dir := rep_path ++ [dir] in
  present <- test (path_exists (InReplica rep_dir)) ;;
  (if negb present then
     makedirs_env rep_dir ;;
     log_env "Created directory" rep_dir
   else sys_ret tt) ;;
  src_to_rep src_dir rep_dir.

Definition sync_item_with_env (src_to_rep : node -> path -> sys unit)
    (rep_path : path) (it : entry) : sys unit :=
  let '(item, item_path) := it in
  f <- test (isfile (InSource (Some item_path))) ;;
  if f then synchronize_file_env (InSource (Some item_path)) rep_path item
  else
    d <- test (isdir (InSource (Some item_path))) ;;
    if d then synchronize_dir_with_env src_to_rep item_path rep_path item
    else sys_ret tt.

(** Here the listing of the source directory is a call like any other:
    it can fail although the path is a directory. *)
Fixpoint src_to_rep_env (src_path : node) (rep_path : path) {struct src_path}
    : sys unit :=
  get_dir_content_env (InSource (Some src_path)) ;;
  match src_path with
  | Dir src_lst =>
      sys_for_each (sync_item_with_env src_to_rep_env rep_path) src_lst
  | _ => sys_ret tt
  end.

Definition synchronize_dir_env (src_dir : node) (rep_path : path)
    (dir : string) : sys unit :=
  synchronize_dir_with_env src_to_rep_env src_dir rep_path dir.

Definition sync_item_env (rep_path : path) (it : entry) : sys unit :=
  sync_item_with_env src_to_rep_env rep_path it.

Definition prune_item_env (src_path : node) (rep_path : path)
    (item : string) : sys unit :=
  let src_item := join (InSource (Some src_path)) item in
  let rep_item := rep_path ++ [item] in
  present <- test (path_exists src_item) ;;
  if negb present then
    f <- test (isfile (InReplica rep_item)) ;;
    if f then
      os_remove_env rep_item ;;
      log_env "Deleted" rep_item
    else
      d <- test (isdir (InReplica rep_item)) ;;
      if d then
        rmtree_env rep_item ;;
        log_env "Deleted" rep_item
      else sys_ret tt
  else sys_ret tt.

Definition rep_to_src_env (src_path : node) (rep_path : path) : sys unit :=
  rep_lst <- get_dir_content_env (InReplica rep_path) ;;
  sys_for_each (prune_item_env src_path rep_path) rep_lst.

Definition synchronize_env (src_path : node) (rep_path : path) : sys unit :=
  src_to_rep_env src_path rep_path ;;
  rep_to_src_env src_path rep_path.

Local Close Scope sys_scope.

(** [agrees m m']: where the environment lets every call through, the
    run [m'] ends as [m] does. *)
Definition agrees {A : Type} (m : io A) (m' : sys A) : Prop :=
  forall t s,
    match m s with
    | Ok a s' => exists t', m' t s = Returned a s' t'
    | Raise e s' => m' t s = Raised e s'
    end.

(** *** Where an exception can start

    Each constructor below is one call of a primitive, reached after the
    calls before it returned, that raises [e] and leaves the state [s'],
    because of the trees or because of the environment.
    [detector_raises] lists the calls of [same_files], [file_raises] the
    calls of [synchronize_file], [pass1_raises] those of [src_to_rep] at
    any depth of the source tree, [pass2_raises] those of [rep_to_src],
    and [sync_raises] puts the two passes in sequence.  [t] is the
    number of calls made before, [s] the state, at the start of the
    function. *)

Inductive detector_raises (a b : location) (t : nat) (s : state)
    (e : error) (s' : state) : Prop :=
| dr_size_src :
    getsize_env a t s = Raised e s' -> detector_raises a b t s e s'
| dr_size_rep n s1 t1 :
    getsize_env a t s = Returned n s1 t1 ->
    getsize_env b t1 s1 = Raised e s' -> detector_raises a b t s e s'
| dr_hash_src n s1 t1 s2 t2 :
    getsize_env a t s = Returned n s1 t1 ->
    getsize_env b t1 s1 = Returned n s2 t2 ->
    read_bytes_env a t2 s2 = Raised e s' -> detector_raises a b t s e s'
| dr_hash_rep n s1 t1 s2 t2 c s3 t3 :
    getsize_env a t s = Returned n s1 t1 ->
    getsize_env b t1 s1 = Returned n s2 t2 ->
    read_bytes_env a t2 s2 = Returned c s3 t3 ->
    read_bytes_env b t3 s3 = Raised e s' -> detector_raises a b t s e s'.

Inductive file_raises (src_file : location) (P : path) (x : string)
    (t : nat) (s : state) (e : error) (s' : state) : Prop :=
| fr_size :
    getsize_env src_file t s = Raised e s' ->
    file_raises src_file P x t s e s'
| fr_remove s1 t1 :
    getsize_env src_file t s = Returned 0 s1 t1 ->
    test (path_exists (InReplica (P ++ [x]))) t1 s1 = Returned true s1 t1 ->
    os_remove_env (P ++ [x]) t1 s1 = Raised e s' ->
    file_raises src_file P x t s e s'
| fr_open_removed s1 t1 s2 t2 :
    getsize_env src_file t s = Returned 0 s1 t1 ->
    test (path_exists (InReplica (P ++ [x]))) t1 s1 = Returned true s1 t1 ->
    os_remove_env (P ++ [x]) t1 s1 = Returned tt s2 t2 ->
    open_w_env (P ++ [x]) t2 s2 = Raised e s' ->
    file_raises src_file P x t s e s'
| fr_log_removed s1 t1 s2 t2 s3 t3 :
    getsize_env src_file t s = Returned 0 s1 t1 ->
    test (path_exists (InReplica (P ++ [x]))) t1 s1 = Returned true s1 t1 ->
    os_remove_env (P ++ [x]) t1 s1 = Returned tt s2 t2 ->
    open_w_env (P ++ [x]) t2 s2 = Returned tt s3 t3 ->
    log_env "Created empty file" (P ++ [x]) t3 s3 = Raised e s' ->
    file_raises src_file P x t s e s'
| fr_open s1 t1 :
    getsize_env src_file t s = Returned 0 s1 t1 ->
    test (path_exists (InReplica (P ++ [x]))) t1 s1 = Returned false s1 t1 ->
    open_w_env (P ++ [x]) t1 s1 = Raised e s' ->
    file_raises src_file P x t s e s'
| fr_log_open s1 t1 s2 t2 :
    getsize_env src_file t s = Returned 0 s1 t1 ->
    test (path_exists (InReplica (P ++ [x]))) t1 s1 = Returned false s1 t1 ->
    open_w_env (P ++ [x]) t1 s1 = Returned tt s2 t2 ->
    log_env "Created empty file" (P ++ [x]) t2 s2 = Raised e s' ->
    file_raises src_file P x t s e s'
| fr_copy_new n s1 t1 :
    getsize_env src_file t s = Returned (S n) s1 t1 ->
    test (path_exists (InReplica (P ++ [x]))) t1 s1 = Returned false s1 t1 ->
    copy2_env src_file x (P ++ [x]) t1 s1 = Raised e s' ->
    file_raises src_file P x t s e s'
| fr_log_new n s1 t1 s2 t2 :
    getsize_env src_file t s = Returned (S n) s1 t1 ->
    test (path_exists (InReplica (P ++ [x]))) t1 s1 = Returned false s1 t1 ->
    copy2_env src_file x (P ++ [x]) t1 s1 = Returned tt s2 t2 ->
    log_env "Created" (P ++ [x]) t2 s2 = Raised e s' ->
    file_raises src_file P x t s e s'
| fr_detector n s1 t1 :
    getsize_env src_file t s = Returned (S n) s1 t1 ->
    test (path_exists (InReplica (P ++ [x]))) t1 s1 = Returned true s1 t1 ->
    detector_raises src_file (InReplica (P ++ [x])) t1 s1 e s' ->
    file_raises src_file P x t s e s'
| fr_copy_update n s1 t1 s2 t2 :
    getsize_env src_file t s = Returned (S n) s1 t1 ->
    test (path_exists (InReplica (P ++ [x]))) t1 s1 = Returned true s1 t1 ->
    same_files_env src_file (InReplica (P ++ [x])) t1 s1
    = Returned false s2 t2 ->
    copy2_env src_file x (P ++ [x]) t2 s2 = Raised e s' ->
    file_raises src_file P x t s e s'
| fr_log_update n s1 t1 s2 t2 s3 t3 :
    getsize_env src_file t s = Returned (S n) s1 t1 ->
    test (path_exists (InReplica (P ++ [x]))) t1 s1 = Returned true s1 t1 ->
    same_files_env src_file (InReplica (P ++ [x])) t1 s1
    = Returned false s2 t2 ->
    copy2_env src_file x (P ++ [x]) t2 s2 = Returned tt s3 t3 ->
    log_env "Updated" (P ++ [x]) t3 s3 = Raised e s' ->
    file_raises src_file P x t s e s'.

Inductive pass1_raises
    : node -> path -> nat -> state -> error -> state -> Prop :=
| p1_listing src P t s e s' :
    get_dir_content_env (InSource (Some src)) t s = Raised e s' ->
    pass1_raises src P t s e s'
| p1_file pre x c post P t s l s0 t0 s1 t1 e s' :
    get_dir_content_env (InSource (Some (Dir (pre ++ (x, File c) :: post))))
                        t s = Returned l s0 t0 ->
    sys_for_each (sync_item_env P) pre t0 s0 = Returned tt s1 t1 ->
    file_raises (InSource (Some (File c))) P x t1 s1 e s' ->
    pass1_raises (Dir (pre ++ (x, File c) :: post)) P t s e s'
| p1_makedirs pre x sub post P t s l s0 t0 s1 t1 e s' :
    get_dir_content_env (InSource (Some (Dir (pre ++ (x, Dir sub) :: post))))
                        t s = Returned l s0 t0 ->
    sys_for_each (sync_item_env P) pre t0 s0 = Returned tt s1 t1 ->
    test (path_exists (InReplica (P ++ [x]))) t1 s1 = Returned false s1 t1 ->
    makedirs_env (P ++ [x]) t1 s1 = Raised e s' ->
    pass1_raises (Dir (pre ++ (x, Dir sub) :: post)) P t s e s'
| p1_log_dir pre x sub post P t s l s0 t0 s1 t1 s2 t2 e s' :
    get_dir_content_env (InSource (Some (Dir (pre ++ (x, Dir sub) :: post))))
                        t s = Returned l s0 t0 ->
    sys_for_each (sync_item_env P) pre t0 s0 = Returned tt s1 t1 ->
    test (path_exists (InReplica (P ++ [x]))) t1 s1 = Returned false s1 t1 ->
    makedirs_env (P ++ [x]) t1 s1 = Returned tt s2 t2 ->
    log_env "Created directory" (P ++ [x]) t2 s2 = Raised e s' ->
    pass1_raises (Dir (pre ++ (x, Dir sub) :: post)) P t s e s'
| p1_below_new pre x sub post P t s l s0 t0 s1 t1 s2 t2 s3 t3 e s' :
    get_dir_content_env (InSource (Some (Dir (pre ++ (x, Dir sub) :: post))))
                        t s = Returned l s0 t0 ->
    sys_for_each (sync_item_env P) pre t0 s0 = Returned tt s1 t1 ->
    test (path_exists (InReplica (P ++ [x]))) t1 s1 = Returned false s1 t1 ->
    makedirs_env (P ++ [x]) t1 s1 = Returned tt s2 t2 ->
    log_env "Created directory" (P ++ [x]) t2 s2 = Returned tt s3 t3 ->
    pass1_raises (Dir sub) (P ++ [x]) t3 s3 e s' ->
    pass1_raises (Dir (pre ++ (x, Dir sub) :: post)) P t s e s'
| p1_below pre x sub post P t s l s0 t0 s1 t1 e s' :
    get_dir_content_env (InSource (Some (Dir (pre ++ (x, Dir sub) :: post))))
                        t s = Returned l s0 t0 ->
    sys_for_each (sync_item_env P) pre t0 s0 = Returned tt s1 t1 ->
    test (path_exists (InReplica (P ++ [x]))) t1 s1 = Returned true s1 t1 ->
    pass1_raises (Dir sub) (P ++ [x]) t1 s1 e s' ->
    pass1_raises (Dir (pre ++ (x, Dir sub) :: post)) P t s e s'.

Inductive pass2_raises (src : node) (P : path) (t : nat) (s : state)
    (e : error) (s' : state) : Prop :=
| p2_listing :
    get_dir_content_env (InReplica P) t s = Raised e s' ->
    pass2_raises src P t s e s'
| p2_remove pre y post s0 t0 s1 t1 :
    get_dir_content_env (InReplica P) t s
    = Returned (pre ++ y :: post) s0 t0 ->
    sys_for_each (prune_item_env src P) pre t0 s0 = Returned tt s1 t1 ->
    test (path_exists (join (InSource (Some src)) y)) t1 s1
    = Returned false s1 t1 ->
    test (isfile (InReplica (P ++ [y]))) t1 s1 = Returned true s1 t1 ->
    os_remove_env (P ++ [y]) t1 s1 = Raised e s' ->
    pass2_raises src P t s e s'
| p2_log_removed pre y post s0 t0 s1 t1 s2 t2 :
    get_dir_content_env (InReplica P) t s
    = Returned (pre ++ y :: post) s0 t0 ->
    sys_for_each (prune_item_env src P) pre t0 s0 = Returned tt s1 t1 ->
    test (path_exists (join (InSource (Some src)) y)) t1 s1
    = Returned false s1 t1 ->
    test (isfile (InReplica (P ++ [y]))) t1 s1 = Returned true s1 t1 ->
    os_remove_env (P ++ [y]) t1 s1 = Returned tt s2 t2 ->
    log_env "Deleted" (P ++ [y]) t2 s2 = Raised e s' ->
    pass2_raises src P t s e s'
| p2_rmtree pre y post s0 t0 s1 t1 :
    get_dir_content_env (InReplica P) t s
    = Returned (pre ++ y :: post) s0 t0 ->
    sys_for_each (prune_item_env src P) pre t0 s0 = Returned tt s1 t1 ->
    test (path_exists (join (InSource (Some src)) y)) t1 s1
    = Returned false s1 t1 ->
    test (isfile (InReplica (P ++ [y]))) t1 s1 = Returned false s1 t1 ->
    test (isdir (InReplica (P ++ [y]))) t1 s1 = Returned true s1 t1 ->
    rmtree_env (P ++ [y]) t1 s1 = Raised e s' ->
    pass2_raises src P t s e s'
| p2_log_rmtree pre y post s0 t0 s1 t1 s2 t2 :
    get_dir_content_env (InReplica P) t s
    = Returned (pre ++ y :: post) s0 t0 ->
    sys_for_each (prune_item_env src P) pre t0 s0 = Returned tt s1 t1 ->
    test (path_exists (join (InSource (Some src)) y)) t1 s1
    = Returned false s1 t1 ->
    test (isfile (InReplica (P ++ [y]))) t1 s1 = Returned false s1 t1 ->
    test (isdir (InReplica (P ++ [y]))) t1 s1 = Returned true s1 t1 ->
    rmtree_env (P ++ [y]) t1 s1 = Returned tt s2 t2 ->
    log_env "Deleted" (P ++ [y]) t2 s2 = Raised e s' ->
    pass2_raises src P t s e s'.

Inductive sync_raises (src : node) (P : path) (t : nat) (s : state)
    (e : error) (s' : state) : Prop :=
| in_pass1 :
    pass1_raises src P t s e s' -> sync_raises src P t s e s'
| in_pass2 s1 t1 :
    src_to_rep_env src P t s = Returned tt s1 t1 ->
    pass2_raises src P t1 s1 e s' -> sync_raises src P t s e s'.

(** *** The claims, as the specification words them

    [initial rep] is the state before the first run: the replica tree
    [rep], an empty log, nothing read yet. *)

Definition initial (rep : node) : state := mkState rep [] 0.

(** Convergence: once [synchronize] has completed, every source path
    has an entry of its type in the replica, a regular file with the
    source's content, and no replica path that the source lacks is
    left. *)
Definition convergence_claim (src rep : node) : Prop :=
  forall s',
    synchronize src [] (initial rep) = Ok tt s' ->
    (forall p n,
        lookup src p = Some n ->
        match n with
        | File c => lookup (replica s') p = Some (File c)
        | Dir _ => is_dir (lookup (replica s') p) = true
        | Special | Dangling => True
        end)
    /\ (forall p,
          lookup rep p <> None -> lookup src p = None ->
          lookup (replica s') p = None).

(** Idempotence: a second run logs nothing and changes nothing. *)
Definition idempotence_claim (src rep : node) : Prop :=
  forall s1 s2,
    synchronize src [] (initial rep) = Ok tt s1 ->
    synchronize src [] s1 = Ok tt s2 ->
    logged s2 = logged s1 /\ replica s2 = replica s1.

(** Deletion by name: Pass 2 removes a replica entry exactly when the
    source directory has no entry of any type under its name. *)
Definition deletion_by_name_claim (src rep : node) : Prop :=
  forall s' x,
    rep_to_src src [] (initial rep) = Ok tt s' ->
    lookup rep [x] <> None ->
    (lookup (replica s') [x] = None <-> lookup src [x] = None).

(** *** Concrete trees *)

(** A file system that reports 4096 bytes for every directory. *)
Definition block_size : list entry -> nat := fun _ => 4096.

Definition hex_value (c : ascii) : N :=
  let n := N_of_ascii c in
  if N.leb 97 n then (n - 87)%N else (n - 48)%N.

Fixpoint bytes_of_hex (h : string) : list byte :=
  match h with
  | String hi (String lo rest) =>
      match Byte.of_N (16 * hex_value hi + hex_value lo) with
      | Some b => b :: bytes_of_hex rest
      | None => bytes_of_hex rest
      end
  | _ => []
  end.

(** Two different 128-byte messages with the same MD5 digest (Wang and
    Yu, 2004). *)
Definition collision_a : list byte :=
  bytes_of_hex
    ("d131dd02c5e6eec4693d9a0698aff95c" ++
     "2fcab58712467eab4004583eb8fb7f89" ++
     "55ad340609f4b30283e488832571415a" ++
     "085125e8f7cdc99fd91dbdf280373c5b" ++
     "d8823e3156348f5bae6dacd436c919c6" ++
     "dd53e2b487da03fd02396306d248cda0" ++
     "e99f33420f577ee8ce54b67080a80d1e" ++
     "c69821bcb6a8839396f9652b6ff72a70").

Definition collision_b : list byte :=
  bytes_of_hex
    ("d131dd02c5e6eec4693d9a0698aff95c" ++
     "2fcab50712467eab4004583eb8fb7f89" ++
     "55ad340609f4b30283e4888325f1415a" ++
     "085125e8f7cdc99fd91dbd7280373c5b" ++
     "d8823e3156348f5bae6dacd436c919c6" ++
     "dd53e23487da03fd02396306d248cda0" ++
     "e99f33420f577ee8ce54b67080280d1e" ++
     "c69821bcb6a8839396f965ab6ff72a70").

Definition demo_src_entries : list entry :=
  [ ("f.txt", File (bytes_of "abc"));
    ("docs", Dir [("readme", File (bytes_of "hello world"))]);
    ("pipe", Special) ].

Definition demo_rep_entries : list entry :=
  [ ("f.txt", File (bytes_of "abd"));
    ("old_dir", Dir [("k", File [])]);
    ("old.txt", File (bytes_of "x"));
    ("docs", Dir []) ].

(** A stale file inside a directory that both trees have. *)
Definition nested_src : node := Dir [("d", Dir [])].
Definition nested_rep : node :=
  Dir [("d", Dir [("stale.txt", File (bytes_of "x"))])].

(** A source directory facing a replica file of the same name. *)
Definition conflict_src : node := Dir [("d", Dir [])].
Definition conflict_rep : node := Dir [("d", File (bytes_of "x"))].

(** A non-empty source file facing a replica directory of the same
    name. *)
Definition shadowed_src : node := Dir [("a", File (bytes_of "abc"))].
Definition shadowed_rep : node := Dir [("a", Dir [])].

(** A replica named pipe that the source does not have. *)
Definition pipe_src : node := Dir [].
Definition pipe_rep : node := Dir [("pipe", Special)].

(** A replica file whose name is a dangling link in the source. *)
Definition dangling_src : node := Dir [("link", Dangling)].
Definition dangling_rep : node := Dir [("link", File (bytes_of "x"))].

(** A zero-length source file. *)
Definition empty_src : node := Dir [("a", File [])].
Definition empty_rep : node := Dir [].

(** Two colliding files under one name. *)
Definition collide_src : node := Dir [("c.bin", File collision_a)].
Definition collide_rep : node := Dir [("c.bin", File collision_b)].

(** A source whose second entry cannot be synchronized: an empty file
    facing a replica directory. *)
Definition failing_src : node :=
  Dir [ ("ok", File (bytes_of "x"));
        ("sub", Dir [("bad", File [])]);
        ("later", File (bytes_of "y")) ].
Definition failing_rep : node :=
  Dir [("sub", Dir [("bad", Dir [])]); ("stale", File [])].

(** Environments.  [calm] lets every call through; [deny_remove p]
    refuses to remove the path [p]; [vanish_at n] lets the call number
    [n] find its path gone; [disk_full] cuts every copy short, leaving
    an empty file at the destination. *)
Definition calm : nat -> call -> state -> option (error * state) :=
  fun _ _ _ => None.

Definition deny_remove (p : path)
    : nat -> call -> state -> option (error * state) :=
  fun _ c s =>
    match c with
    | Remove q => if is_prefix p q && is_prefix q p
                  then Some (PermissionError, s) else None
    | _ => None
    end.

Definition vanish_at (n : nat)
    : nat -> call -> state -> option (error * state) :=
  fun t _ s => if Nat.eqb t n then Some (FileNotFoundError, s) else None.

Definition disk_full : nat -> call -> state -> option (error * state) :=
  fun _ c s =>
    match c with
    | Copy2 _ dst =>
        Some (OtherOSError,
              match write (replica s) dst (Some (File [])) with
              | Done r => set_replica r s
              | Fail _ => s
              end)
    | _ => None
    end.

(** Two stale replica files and a new source file; a file that differs
    from its replica. *)
Definition stale_src : node := Dir [("new.txt", File (bytes_of "x"))].
Definition stale_rep : node :=
  Dir [("old1", File (bytes_of "a")); ("old2", File (bytes_of "b"))].
Definition changed_src : node := Dir [("f", File (bytes_of "new"))].
Definition changed_rep : node := Dir [("f", File (bytes_of "old"))].

(** ** Further definitions

    *** What a run leaves behind, whether it returns or raises *)

Definition final {A : Type} (r : result A) : state :=
  match r with Ok _ s => s | Raise _ s => s end.

(** [steps R m]: every run of [m] takes a state to one related by [R]. *)
Definition steps (R : state -> state -> Prop) {A : Type} (m : io A) : Prop :=
  forall s, R s (final (m s)).

(** *** The lines of the log *)

Definition creation_label (a : string) : bool :=
  String.eqb a "Created" || String.eqb a "Created empty file"
  || String.eqb a "Updated" || String.eqb a "Created directory".

(** [q] is [P] followed by at least one more component. *)
Definition strictly_below (P q : path) : bool :=
  is_prefix P q && Nat.ltb (List.length P) (List.length q).

(** A line of Pass 1: a creation or an update of a path below [P]. *)
Definition pass1_line (P : path) (ev : string * path) : bool :=
  creation_label (fst ev) && strictly_below P (snd ev).

(** A line of Pass 2: the deletion of an entry of the directory [P]. *)
Definition pass2_line (P : path) (ev : string * path) : bool :=
  String.eqb (fst ev) "Deleted" && is_prefix P (snd ev)
  && Nat.eqb (List.length (snd ev)) (S (List.length P)).

(** The log grew by lines that satisfy [Q]. *)
Definition appended (Q : string * path -> bool) (s s' : state) : Prop :=
  exists evs, logged s' = logged s ++ evs /\ forallb Q evs = true.

(** Nothing changed at the paths that neither lie at or below [P] nor
    lead to it. *)
Definition outside_kept (P : path) (s s' : state) : Prop :=
  forall q,
    is_prefix P q = false -> is_prefix q P = false ->
    lookup (replica s') q = lookup (replica s) q.

Definition reads_kept (s s' : state) : Prop := reads s' = reads s.

(** *** The part of a tree that Pass 1 copies

    [regular n] keeps the regular files and the directories of [n], in
    listing order, and drops the entries that are neither. *)

Fixpoint regular (n : node) : node :=
  match n with
  | Dir es =>
      Dir (flat_map (fun e => let '(x, t) := e in
                              match t with
                              | File c => [(x, File c)]
                              | Dir _ => [(x, regular t)]
                              | _ => []
                              end) es)
  | _ => n
  end.

(** The number of regular files and directories strictly below [n]. *)
Fixpoint count_regular (n : node) : nat :=
  match n with
  | Dir es =>
      fold_right (fun e acc => let '(_, t) := e in
                               match t with
                               | File _ => S acc
                               | Dir _ => S (count_regular t + acc)
                               | _ => acc
                               end) 0 es
  | _ => 0
  end.

(** [src_to_rep] run on a well-formed source directory against an empty
    replica directory at [P] leaves there the regular part of the
    source and logs one line for each of its files and directories. *)
Definition fresh_spec (src : node) : Prop :=
  match src with
  | Dir ses =>
      forall P s,
        lookup (replica s) P = Some (Dir []) ->
        well_formed src = true ->
        exists s' evs,
          src_to_rep src P s = Ok tt s'
          /\ replica s' = subst (replica s) P (regular src)
          /\ logged s' = logged s ++ evs
          /\ List.length evs = count_regular src
  | _ => True
  end.

Definition regular_entries (es : list entry) : list entry :=
  match regular (Dir es) with Dir r => r | _ => [] end.


(** No entry of the listing is a directory. *)
Definition no_subdirectory (es : list entry) : bool :=
  forallb (fun e => negb (is_dir (Some (snd e)))) es.



(** No dangling symbolic link anywhere in the tree. *)
Fixpoint link_free (n : node) : bool :=
  match n with
  | Dir es => forallb (fun e => let '(_, c) := e in link_free c) es
  | Dangling => false
  | File _ | Special => true
  end.

(** The replica holds no dangling symbolic link at or below [P]. *)
Definition link_free_at (s : state) (P : path) : bool :=
  match lookup (replica s) P with
  | Some r => link_free r
  | None => true
  end.

(** * Properties *)

(** ** Association lists *)

Lemma child_put_same x n es : child (put x n es) x = Some n.
Proof.
  induction es as [|[k m] es IH]; simpl.
  - now rewrite String.eqb_refl.
  - destruct (String.eqb k x) eqn:E; simpl; rewrite E; auto.
Qed.

Lemma child_put_other x y n es : x <> y -> child (put x n es) y = child es y.
Proof.
  intros Hxy. induction es as [|[k m] es IH]; simpl.
  - apply String.eqb_neq in Hxy. now rewrite Hxy.
  - destruct (String.eqb k x) eqn:E; simpl.
    + apply String.eqb_eq in E. subst k.
      apply String.eqb_neq in Hxy. now rewrite Hxy.
    + now rewrite IH.
Qed.

Lemma child_unlink_same x es : child (unlink x es) x = None.
Proof.
  induction es as [|[k m] es IH]; simpl; auto.
  destruct (String.eqb k x) eqn:E; simpl; auto. now rewrite E.
Qed.

Lemma child_unlink_other x y es :
  x <> y -> child (unlink x es) y = child es y.
Proof.
  intros Hxy. induction es as [|[k m] es IH]; simpl; auto.
  destruct (String.eqb k x) eqn:E; simpl.
  - apply String.eqb_eq in E. subst k.
    apply String.eqb_neq in Hxy. now rewrite Hxy.
  - now rewrite IH.
Qed.

Lemma put_put x a b es : put x b (put x a es) = put x b es.
Proof.
  induction es as [|[k m] es IH]; simpl.
  - now rewrite String.eqb_refl.
  - destruct (String.eqb k x) eqn:E; simpl; rewrite E; auto.
    now rewrite IH.
Qed.

Lemma put_child_id x c es : child es x = Some c -> put x c es = es.
Proof.
  induction es as [|[k m] es IH]; simpl; try discriminate.
  destruct (String.eqb k x) eqn:E; intros H.
  - now inversion H.
  - now rewrite IH.
Qed.

Lemma child_In es x n : child es x = Some n -> In (x, n) es.
Proof.
  induction es as [|[k m] es IH]; simpl; try discriminate.
  destruct (String.eqb k x) eqn:E; intros H.
  - apply String.eqb_eq in E. inversion H. subst. now left.
  - right. auto.
Qed.

Lemma child_None_notin es x : child es x = None -> ~ In x (map fst es).
Proof.
  induction es as [|[k m] es IH]; simpl; auto.
  destruct (String.eqb k x) eqn:E; try discriminate.
  intros H [Hk|Hin].
  - subst. now rewrite String.eqb_refl in E.
  - now apply IH.
Qed.

Lemma notin_child_None es x : ~ In x (map fst es) -> child es x = None.
Proof.
  induction es as [|[k m] es IH]; simpl; auto.
  intros H. destruct (String.eqb k x) eqn:E.
  - apply String.eqb_eq in E. exfalso. apply H. now left.
  - apply IH. intros Hin. apply H. now right.
Qed.

(** ** Paths *)

Lemma lookup_app n p q :
  lookup n (p ++ q) =
  match lookup n p with Some m => lookup m q | None => None end.
Proof.
  revert n. induction p as [|x p IH]; intros n; simpl; auto.
  destruct n; auto. destruct (child entries x); auto.
Qed.

Lemma lookup_snoc n P es x :
  lookup n P = Some (Dir es) -> lookup n (P ++ [x]) = child es x.
Proof.
  intros H. rewrite lookup_app, H. simpl. now destruct (child es x).
Qed.

Lemma lookup_subst n P a m :
  lookup n P = Some a -> lookup (subst n P m) P = Some m.
Proof.
  revert n. induction P as [|x P IH]; intros n; simpl; auto.
  destruct n; try discriminate.
  destruct (child entries x) eqn:E; try discriminate.
  intros H. simpl. rewrite child_put_same. eauto.
Qed.

Lemma subst_subst n P a m m' :
  lookup n P = Some a -> subst (subst n P m) P m' = subst n P m'.
Proof.
  revert n. induction P as [|x P IH]; intros n; simpl; auto.
  destruct n; try discriminate.
  destruct (child entries x) eqn:E; try discriminate.
  intros H. simpl. rewrite child_put_same, put_put. now rewrite IH.
Qed.

Lemma subst_id n P m : lookup n P = Some m -> subst n P m = n.
Proof.
  revert n. induction P as [|x P IH]; intros n; simpl.
  - intros H. now inversion H.
  - destruct n; try discriminate.
    destruct (child entries x) eqn:E; try discriminate.
    intros H. rewrite IH by assumption. now rewrite put_child_id.
Qed.

Lemma subst_snoc n P es x c c' :
  lookup n P = Some (Dir es) -> child es x = Some c ->
  subst n (P ++ [x]) c' = subst n P (Dir (put x c' es)).
Proof.
  revert n. induction P as [|y P IH]; intros n; simpl.
  - intros H Hc. inversion H. subst n. now rewrite Hc.
  - destruct n; try discriminate.
    destruct (child entries y) eqn:E; try discriminate.
    intros H Hc. now rewrite (IH _ H Hc).
Qed.

Lemma write_cons es y q v :
  q <> [] ->
  write (Dir es) (y :: q) v =
  match child es y with
  | Some c => match write c q v with
              | Done c' => Done (Dir (put y c' es))
              | Fail e => Fail e
              end
  | None => Fail FileNotFoundError
  end.
Proof. destruct q; [congruence | reflexivity]. Qed.

Lemma write_subst n P es x v :
  lookup n P = Some (Dir es) ->
  write n (P ++ [x]) v = Done (subst n P (Dir (bound x v es))).
Proof.
  revert n. induction P as [|y P IH]; intros n.
  - simpl. intros H. inversion H. subst n. reflexivity.
  - intros H. simpl in H. destruct n; try discriminate.
    destruct (child entries y) eqn:E; try discriminate.
    change ((y :: P) ++ [x]) with (y :: (P ++ [x])).
    rewrite write_cons by (now destruct P).
    rewrite E, (IH _ H). simpl. now rewrite E.
Qed.

Lemma mkdirs_subst n P es x :
  lookup n P = Some (Dir es) -> child es x = None ->
  mkdirs n (P ++ [x]) = Done (subst n P (Dir (put x (Dir []) es))).
Proof.
  revert n. induction P as [|y P IH]; intros n; simpl.
  - intros H Hc. inversion H. subst n. now rewrite Hc.
  - destruct n; try discriminate.
    destruct (child entries y) eqn:E; try discriminate.
    intros H Hc. now rewrite (IH _ H Hc).
Qed.

(** ** Primitives on an entry of a directory

    In a state whose replica has the directory [Dir es] at [P], a
    primitive applied to [P ++ [x]] reads or rebinds the entry [x] of
    [es] and leaves the rest of the tree in place. *)

Lemma with_dir_lookup P es es' s :
  lookup (replica s) P = Some (Dir es) ->
  lookup (replica (with_dir P es' s)) P = Some (Dir es').
Proof. intros H. simpl. eapply lookup_subst; eauto. Qed.

Lemma with_dir_with_dir P es es1 es2 s :
  lookup (replica s) P = Some (Dir es) ->
  with_dir P es2 (with_dir P es1 s) = with_dir P es2 s.
Proof.
  intros H. unfold with_dir, set_replica. simpl.
  now rewrite (subst_subst _ _ _ _ _ H).
Qed.

Lemma is_file_stat o : is_file (os_stat o) = is_file o.
Proof. now destruct o as [[| | |]|]. Qed.

Lemma is_dir_stat o : is_dir (os_stat o) = is_dir o.
Proof. now destruct o as [[| | |]|]. Qed.

Lemma path_exists_entry s P es x :
  lookup (replica s) P = Some (Dir es) ->
  path_exists (InReplica (P ++ [x])) s
  = Ok (is_some (os_stat (child es x))) s.
Proof.
  intros H. unfold path_exists. simpl. now rewrite (lookup_snoc _ _ _ _ H).
Qed.

Lemma isfile_entry s P es x :
  lookup (replica s) P = Some (Dir es) ->
  isfile (InReplica (P ++ [x])) s = Ok (is_file (child es x)) s.
Proof.
  intros H. unfold isfile. simpl.
  now rewrite (lookup_snoc _ _ _ _ H), is_file_stat.
Qed.

Lemma isdir_entry s P es x :
  lookup (replica s) P = Some (Dir es) ->
  isdir (InReplica (P ++ [x])) s = Ok (is_dir (child es x)) s.
Proof.
  intros H. unfold isdir. simpl.
  now rewrite (lookup_snoc _ _ _ _ H), is_dir_stat.
Qed.

Lemma os_remove_entry s P es x n :
  lookup (replica s) P = Some (Dir es) ->
  child es x = Some n -> is_dir (Some n) = false ->
  os_remove (P ++ [x]) s = Ok tt (with_dir P (unlink x es) s).
Proof.
  intros H Hc Hd. unfold os_remove.
  rewrite (lookup_snoc _ _ _ _ H), Hc.
  destruct n; try discriminate;
    now rewrite (write_subst _ _ _ _ _ H).
Qed.

Lemma os_remove_directory s P es x sub :
  lookup (replica s) P = Some (Dir es) ->
  child es x = Some (Dir sub) ->
  os_remove (P ++ [x]) s = Raise IsADirectoryError s.
Proof.
  intros H Hc. unfold os_remove.
  now rewrite (lookup_snoc _ _ _ _ H), Hc.
Qed.

Lemma rmtree_entry s P es x sub :
  lookup (replica s) P = Some (Dir es) ->
  child es x = Some (Dir sub) ->
  rmtree (P ++ [x]) s = Ok tt (with_dir P (unlink x es) s).
Proof.
  intros H Hc. unfold rmtree.
  rewrite (lookup_snoc _ _ _ _ H), Hc.
  now rewrite (write_subst _ _ _ _ _ H).
Qed.

Lemma open_w_entry s P es x :
  lookup (replica s) P = Some (Dir es) ->
  child es x = None \/ is_file (child es x) = true ->
  open_w (P ++ [x]) s = Ok tt (with_dir P (put x (File []) es) s).
Proof.
  intros H Hc. unfold open_w.
  rewrite (lookup_snoc _ _ _ _ H).
  destruct (child es x) as [[| | |]|]; destruct Hc; try discriminate;
    now rewrite (write_subst _ _ _ _ _ H).
Qed.

Lemma copy2_entry s P es x c b :
  lookup (replica s) P = Some (Dir es) ->
  child es x = None \/ is_file (child es x) = true ->
  copy2 (InSource (Some (File c))) b (P ++ [x]) s =
  Ok tt (with_dir P (put x (File c) es) s).
Proof.
  intros H Hc. unfold copy2.
  rewrite (lookup_snoc _ _ _ _ H). simpl.
  destruct (child es x) as [[| | |]|] eqn:E; destruct Hc; try discriminate;
    simpl; rewrite (lookup_snoc _ _ _ _ H), E; simpl;
    now rewrite (write_subst _ _ _ _ _ H).
Qed.

Lemma makedirs_entry s P es x :
  lookup (replica s) P = Some (Dir es) -> child es x = None ->
  makedirs (P ++ [x]) s = Ok tt (with_dir P (put x (Dir []) es) s).
Proof.
  intros H Hc. unfold makedirs. now rewrite (mkdirs_subst _ _ _ _ H Hc).
Qed.

Lemma unlink_absent x es : child es x = None -> unlink x es = es.
Proof.
  induction es as [|[k m] es IH]; simpl; auto.
  destruct (String.eqb k x) eqn:E; try discriminate.
  intros H. simpl. now rewrite IH.
Qed.

(** ** The change detector *)

Lemma digest_length c : List.length (MD5.digest c) = 16.
Proof.
  with_strategy transparent [MD5.digest] (unfold MD5.digest).
  generalize (MD5.compress c). reflexivity.
Qed.

Lemma hexdigest_length c : String.length (MD5.hexdigest c) = 32.
Proof.
  with_strategy transparent [MD5.hexdigest MD5.digest]
    (unfold MD5.hexdigest, MD5.digest).
  generalize (MD5.compress c). reflexivity.
Qed.

Lemma calculate_hash_file l c s :
  resolve l s = Some (File c) ->
  calculate_hash l s =
  Ok (MD5.hexdigest c) (mkState (replica s) (logged s) (S (reads s))).
Proof.
  intros H. unfold calculate_hash, bind, read_bytes. now rewrite H.
Qed.

Lemma getsize_file l c s :
  resolve l s = Some (File c) -> getsize l s = Ok (List.length c) s.
Proof. intros H. unfold getsize. now rewrite H. Qed.

Lemma same_files_files a b c1 c2 s :
  resolve a s = Some (File c1) -> resolve b s = Some (File c2) ->
  same_files a b s =
  if Nat.eqb (List.length c1) (List.length c2)
  then Ok (String.eqb (MD5.hexdigest c1) (MD5.hexdigest c2))
          (mkState (replica s) (logged s) (S (S (reads s))))
  else Ok false s.
Proof.
  intros Ha Hb. unfold same_files, bind.
  rewrite (getsize_file _ _ _ Ha), (getsize_file _ _ _ Hb).
  destruct (Nat.eqb _ _); simpl; auto.
  rewrite (calculate_hash_file _ _ _ Ha).
  rewrite (calculate_hash_file b c2).
  - reflexivity.
  - destruct b; simpl in *; auto.
Qed.

(** ** [synchronize_file] on an entry that is absent or a regular file *)

Lemma getsize_source_file c s :
  getsize (InSource (Some (File c))) s = Ok (List.length c) s.
Proof. reflexivity. Qed.

Lemma synchronize_file_entry c P x s es :
  lookup (replica s) P = Some (Dir es) ->
  child es x = None \/ is_file (child es x) = true ->
  exists s',
    synchronize_file (InSource (Some (File c))) P x s = Ok tt s'
    /\ replica s' = subst (replica s) P (Dir (file_synced c x es))
    /\ logged s' = logged s ++ file_events c P x es.
Proof.
  intros H Hc.
  assert (Hx : child es x = None \/ exists c', child es x = Some (File c')).
  { destruct (child es x) as [[c'| | |]|]; eauto;
      destruct Hc; discriminate. }
  clear Hc. unfold synchronize_file, file_synced, file_events, bind.
  rewrite getsize_source_file.
  destruct (Nat.eqb (List.length c) 0) eqn:Hlen;
    rewrite (path_exists_entry _ _ _ _ H).
  - (* empty source file *)
    destruct Hx as [E|[c' E]]; rewrite E; simpl.
    + unfold ret. rewrite (open_w_entry _ _ es) by auto.
      rewrite (unlink_absent _ _ E).
      eexists. split; [reflexivity|]. simpl. auto.
    + rewrite (os_remove_entry _ _ _ _ _ H E eq_refl).
      rewrite (open_w_entry _ _ (unlink x es))
        by (eauto using with_dir_lookup, child_unlink_same).
      rewrite (with_dir_with_dir _ _ _ _ _ H).
      eexists. split; [reflexivity|]. simpl. auto.
  - (* non-empty source file *)
    destruct Hx as [E|[c' E]]; rewrite E; simpl.
    + rewrite (copy2_entry _ P es) by auto.
      eexists. split; [reflexivity|]. simpl. auto.
    + rewrite (same_files_files _ _ c c') by
        (simpl; auto; now rewrite (lookup_snoc _ _ _ _ H)).
      unfold identical.
      destruct (Nat.eqb (List.length c) (List.length c')) eqn:El; simpl.
      * destruct (String.eqb (MD5.hexdigest c) (MD5.hexdigest c')) eqn:Eh;
          simpl.
        -- unfold ret. eexists. split; [reflexivity|]. simpl.
           rewrite (subst_id _ _ _ H). now rewrite app_nil_r.
        -- rewrite (copy2_entry _ P es) by (simpl; rewrite ?E; auto).
           eexists. split; [reflexivity|]. simpl. auto.
      * rewrite (copy2_entry _ P es) by (rewrite ?E; auto).
        eexists. split; [reflexivity|]. simpl. auto.
Qed.

(** ** Induction on trees *)

Lemma node_tree_ind (Q : node -> Prop) :
  (forall c, Q (File c)) -> Q Special -> Q Dangling ->
  (forall es, Forall (fun e => Q (snd e)) es -> Q (Dir es)) ->
  forall n, Q n.
Proof.
  intros HF HS HL HD. fix IH 1. intros [c|es| |].
  - apply HF.
  - apply HD. induction es as [|[k m] es IHes]; constructor.
    + apply IH.
    + apply IHes.
  - apply HS.
  - apply HL.
Qed.

Lemma distinct_cons x l :
  distinct (x :: l) = true -> ~ In x l /\ distinct l = true.
Proof.
  simpl. intros H. apply andb_prop in H. destruct H as [H1 H2].
  split; auto. intros Hin. apply negb_true_iff in H1.
  assert (existsb (String.eqb x) l = true).
  { apply existsb_exists. exists x. split; auto. apply String.eqb_refl. }
  congruence.
Qed.

(** ** The listing of a source directory

    [src_to_rep] iterates over the entries of the source directory, each
    name with the node it denotes.  In a well-formed directory that is
    the listing [get_dir_content] returns, each name joined to the
    directory's path. *)

Lemma distinct_child es x t :
  distinct (map fst es) = true -> In (x, t) es -> child es x = Some t.
Proof.
  induction es as [|[k m] es IH]; intros Hd Hin; [contradiction|].
  apply distinct_cons in Hd. destruct Hd as [Hk Hd].
  simpl. destruct Hin as [E|Hin].
  - inversion E. subst. now rewrite String.eqb_refl.
  - destruct (String.eqb k x) eqn:E.
    + apply String.eqb_eq in E. subst k. exfalso. apply Hk.
      apply (in_map fst) in Hin. exact Hin.
    + auto.
Qed.

Lemma source_listing es s :
  get_dir_content (InSource (Some (Dir es))) s = Ok (map fst es) s.
Proof. reflexivity. Qed.

Lemma source_join es x t :
  well_formed (Dir es) = true -> In (x, t) es ->
  join (InSource (Some (Dir es))) x = InSource (Some t).
Proof.
  intros Hwf Hin. simpl in Hwf. apply andb_prop in Hwf.
  destruct Hwf as [Hd _]. simpl.
  now rewrite (distinct_child _ _ _ Hd Hin).
Qed.

(** ** The loop of [src_to_rep] *)

Lemma src_to_rep_dir es P :
  src_to_rep (Dir es) P = for_each (sync_item P) es.
Proof. reflexivity. Qed.

Lemma for_each_cons {A} (f : A -> io unit) x l s :
  for_each f (x :: l) s =
  match f x s with
  | Ok _ s' => for_each f l s'
  | Raise e s' => Raise e s'
  end.
Proof. reflexivity. Qed.

Lemma for_each_app {A} (f : A -> io unit) l1 l2 s :
  for_each f (l1 ++ l2) s =
  match for_each f l1 s with
  | Ok _ s' => for_each f l2 s'
  | Raise e s' => Raise e s'
  end.
Proof.
  revert s. induction l1 as [|x l1 IH]; intros s; simpl; auto.
  unfold bind. destruct (f x s); auto.
Qed.

Lemma sync_item_file P x c s :
  sync_item P (x, File c) s =
  synchronize_file (InSource (Some (File c))) P x s.
Proof. reflexivity. Qed.

Lemma sync_item_dir P x sub s :
  sync_item P (x, Dir sub) s = synchronize_dir (Dir sub) P x s.
Proof. reflexivity. Qed.

Lemma sync_item_special P x s : sync_item P (x, Special) s = Ok tt s.
Proof. reflexivity. Qed.

Lemma sync_item_dangling P x s : sync_item P (x, Dangling) s = Ok tt s.
Proof. reflexivity. Qed.

Lemma synchronize_dir_absent src_dir P x s es :
  lookup (replica s) P = Some (Dir es) -> child es x = None ->
  synchronize_dir src_dir P x s =
  src_to_rep src_dir (P ++ [x])
    (mkState (subst (replica s) P (Dir (put x (Dir []) es)))
             (logged s ++ [("Created directory", P ++ [x])]) (reads s)).
Proof.
  intros H Hc. unfold synchronize_dir, synchronize_dir_with, bind.
  rewrite (path_exists_entry _ _ _ _ H), Hc. simpl.
  now rewrite (makedirs_entry _ _ _ _ H Hc).
Qed.

Lemma synchronize_dir_present src_dir P x s es rsub :
  lookup (replica s) P = Some (Dir es) -> child es x = Some (Dir rsub) ->
  synchronize_dir src_dir P x s = src_to_rep src_dir (P ++ [x]) s.
Proof.
  intros H Hc. unfold synchronize_dir, synchronize_dir_with, bind.
  now rewrite (path_exists_entry _ _ _ _ H), Hc.
Qed.

(** ** Compatibility and mirroring, entry by entry *)

Lemma compatible_cons e ses res :
  compatible (Dir (e :: ses)) (Dir res) =
  compatible (Dir [e]) (Dir res) && compatible (Dir ses) (Dir res).
Proof. simpl. now rewrite andb_true_r. Qed.

Lemma mirrored_cons e ses res :
  mirrored (Dir (e :: ses)) (Dir res) =
  mirrored (Dir [e]) (Dir res) && mirrored (Dir ses) (Dir res).
Proof. simpl. now rewrite andb_true_r. Qed.

Lemma compatible_ext ses res res' :
  (forall y, In y (map fst ses) -> child res' y = child res y) ->
  compatible (Dir ses) (Dir res') = compatible (Dir ses) (Dir res).
Proof.
  induction ses as [|[k t] ses IH]; intros H; auto.
  rewrite (compatible_cons _ _ res'), (compatible_cons _ _ res).
  rewrite IH by (intros; apply H; simpl; auto).
  simpl. rewrite H by (simpl; auto). reflexivity.
Qed.

Lemma mirrored_ext ses res res' :
  (forall y, In y (map fst ses) -> child res' y = child res y) ->
  mirrored (Dir ses) (Dir res') = mirrored (Dir ses) (Dir res).
Proof.
  induction ses as [|[k t] ses IH]; intros H; auto.
  rewrite (mirrored_cons _ _ res'), (mirrored_cons _ _ res).
  rewrite IH by (intros; apply H; simpl; auto).
  simpl. rewrite H by (simpl; auto). reflexivity.
Qed.

Lemma compatible_fresh ses : compatible (Dir ses) (Dir []) = true.
Proof. induction ses as [|[k t] ses IH]; simpl in *; auto. Qed.

Lemma identical_refl c : identical c c = true.
Proof. unfold identical. now rewrite Nat.eqb_refl, String.eqb_refl. Qed.

Lemma file_synced_other c x y es :
  x <> y -> child (file_synced c x es) y = child es y.
Proof.
  intros Hxy. unfold file_synced.
  destruct (Nat.eqb (List.length c) 0).
  - now rewrite child_put_other, child_unlink_other.
  - destruct (child es x) as [[c'| | |]|];
      try destruct (identical c c'); auto using child_put_other.
Qed.

Lemma file_synced_same c x es :
  child es x = None \/ is_file (child es x) = true ->
  exists c', child (file_synced c x es) x = Some (File c')
             /\ identical c c' = true.
Proof.
  intros Hc. unfold file_synced.
  destruct (Nat.eqb (List.length c) 0) eqn:El.
  - exists []. rewrite child_put_same. split; auto.
    apply Nat.eqb_eq in El. destruct c; try discriminate.
    apply identical_refl.
  - destruct (child es x) as [[c'| | |]|] eqn:E;
      try (destruct Hc; discriminate).
    + destruct (identical c c') eqn:Ei.
      * exists c'. auto.
      * exists c. rewrite child_put_same. auto using identical_refl.
    + exists c. rewrite child_put_same. auto using identical_refl.
Qed.

(** ** Pass 1 mirrors the source *)

Lemma sync_item_mirrors x t P s res :
  pass1_spec t ->
  lookup (replica s) P = Some (Dir res) ->
  well_formed t = true ->
  compatible (Dir [(x, t)]) (Dir res) = true ->
  exists s1 res1,
    sync_item P (x, t) s = Ok tt s1
    /\ replica s1 = subst (replica s) P (Dir res1)
    /\ (forall y, y <> x -> child res1 y = child res y)
    /\ mirrored (Dir [(x, t)]) (Dir res1) = true.
Proof.
  intros IH H Hwf Hc. simpl in Hc. rewrite andb_true_r in Hc.
  destruct t as [c|sub| |].
  - (* regular file *)
    assert (Hx : child res x = None \/ is_file (child res x) = true).
    { destruct (child res x) as [[| | |]|]; auto; discriminate. }
    destruct (synchronize_file_entry c P x s res H Hx) as (s1 & E & Hr & _).
    exists s1, (file_synced c x res). rewrite sync_item_file.
    repeat split; auto.
    + intros y Hy. apply file_synced_other. congruence.
    + destruct (file_synced_same c x res Hx) as (c' & Hc' & Hi).
      simpl. now rewrite Hc', Hi.
  - (* directory *)
    rewrite sync_item_dir. simpl in IH.
    destruct (child res x) as [r|] eqn:E.
    + destruct r as [|rsub| |]; try discriminate.
      rewrite (synchronize_dir_present _ _ _ _ _ _ H E).
      destruct (IH (P ++ [x]) s rsub) as (s1 & E1 & res' & Hr & Hm & _); auto.
      { now rewrite (lookup_snoc _ _ _ _ H). }
      exists s1, (put x (Dir res') res). repeat split; auto.
      * rewrite Hr. eapply subst_snoc; eauto.
      * intros y Hy. apply child_put_other. congruence.
      * change (mirrored (Dir [(x, Dir sub)]) (Dir (put x (Dir res') res)))
          with (match child (put x (Dir res') res) x with
                | Some r => mirrored (Dir sub) r
                | None => false
                end && true).
        now rewrite child_put_same, Hm.
    + rewrite (synchronize_dir_absent _ _ _ _ _ H E).
      set (s0 := mkState _ _ _).
      assert (H0 : lookup (replica s0) P = Some (Dir (put x (Dir []) res)))
        by (simpl; eapply lookup_subst; eauto).
      destruct (IH (P ++ [x]) s0 []) as (s1 & E1 & res' & Hr & Hm & _); auto.
      { rewrite (lookup_snoc _ _ _ _ H0). apply child_put_same. }
      { apply compatible_fresh. }
      exists s1, (put x (Dir res') res). repeat split; auto.
      * rewrite Hr.
        rewrite (subst_snoc _ _ _ _ _ _ H0 (child_put_same _ _ _)).
        simpl. rewrite (subst_subst _ _ _ _ _ H). now rewrite put_put.
      * intros y Hy. apply child_put_other. congruence.
      * change (mirrored (Dir [(x, Dir sub)]) (Dir (put x (Dir res') res)))
          with (match child (put x (Dir res') res) x with
                | Some r => mirrored (Dir sub) r
                | None => false
                end && true).
        now rewrite child_put_same, Hm.
  - (* special file *)
    exists s, res. rewrite sync_item_special. repeat split; auto.
    symmetry. now apply subst_id.
  - (* dangling link *)
    exists s, res. rewrite sync_item_dangling. repeat split; auto.
    symmetry. now apply subst_id.
Qed.

Lemma well_formed_cons x t ses :
  well_formed (Dir ((x, t) :: ses)) = true ->
  ~ In x (map fst ses) /\ well_formed t = true
  /\ well_formed (Dir ses) = true.
Proof.
  intros H. change (distinct (x :: map fst ses)
    && (well_formed t && forallb (fun e => let '(_, c) := e in well_formed c) ses)
    = true) in H.
  apply andb_prop in H. destruct H as [H1 H2].
  apply andb_prop in H2. destruct H2 as [H2 H3].
  apply distinct_cons in H1. destruct H1 as [H0 H1].
  repeat split; auto. simpl. now rewrite H1, H3.
Qed.

Lemma for_each_sync_item_mirrors ses :
  Forall (fun e => pass1_spec (snd e)) ses ->
  forall P s res,
    lookup (replica s) P = Some (Dir res) ->
    well_formed (Dir ses) = true ->
    compatible (Dir ses) (Dir res) = true ->
    exists s',
      for_each (sync_item P) ses s = Ok tt s' /\ pass1_post ses P res s s'.
Proof.
  induction 1 as [|[x t] ses Ht Hses IH]; intros P s res H Hwf Hc.
  - exists s. split; auto. exists res. repeat split; auto.
    symmetry. now apply subst_id.
  - apply well_formed_cons in Hwf. destruct Hwf as (Hx & Hwt & Hws).
    rewrite compatible_cons in Hc. apply andb_prop in Hc.
    destruct Hc as [Hc1 Hc2].
    destruct (sync_item_mirrors x t P s res Ht H Hwt Hc1)
      as (s1 & res1 & E1 & Hr1 & Hf1 & Hm1).
    assert (H1 : lookup (replica s1) P = Some (Dir res1))
      by (rewrite Hr1; eapply lookup_subst; eauto).
    destruct (IH P s1 res1 H1 Hws) as (s' & E' & res' & Hr' & Hm' & Hf').
    { rewrite <- Hc2. apply compatible_ext.
      intros y Hy. apply Hf1. congruence. }
    exists s'. split.
    { rewrite for_each_cons, E1. exact E'. }
    exists res'. repeat split.
    + rewrite Hr', Hr1. eapply subst_subst; eauto.
    + rewrite mirrored_cons, Hm', andb_true_r. rewrite <- Hm1.
      apply mirrored_ext. simpl. intros y [<-|[]]. now apply Hf'.
    + intros y Hy. simpl in Hy.
      rewrite Hf' by (intros Hin; apply Hy; now right).
      apply Hf1. intros ->. apply Hy. now left.
Qed.

Lemma src_to_rep_mirrors src : pass1_spec src.
Proof.
  induction src as [c| | |ses IH] using node_tree_ind; try exact I.
  unfold pass1_spec. intros P s res H Hwf Hc. rewrite src_to_rep_dir.
  now apply for_each_sync_item_mirrors.
Qed.

(** ** The loop of [rep_to_src] *)

Lemma path_exists_source src y s :
  path_exists (join (InSource (Some src)) y) s =
  Ok (is_some (os_stat (lookup src [y]))) s.
Proof. reflexivity. Qed.

Lemma prune_item_entry src P y s cur :
  lookup (replica s) P = Some (Dir cur) ->
  prune_item src P y s =
  Ok tt (if deletable src (child cur y) y
         then mkState (subst (replica s) P (Dir (unlink y cur)))
                      (logged s ++ [("Deleted", P ++ [y])]) (reads s)
         else s).
Proof.
  intros H. unfold prune_item, deletable, bind.
  rewrite path_exists_source.
  destruct (is_some (os_stat (lookup src [y]))); cbn [negb andb]; auto.
  rewrite (isfile_entry _ _ _ _ H).
  destruct (child cur y) as [[c|sub| |]|] eqn:E; cbn [is_file is_dir orb].
  - now rewrite (os_remove_entry _ _ _ _ _ H E).
  - rewrite (isdir_entry _ _ _ _ H), E. cbn [is_dir].
    now rewrite (rmtree_entry _ _ _ _ _ H E).
  - now rewrite (isdir_entry _ _ _ _ H), E.
  - now rewrite (isdir_entry _ _ _ _ H), E.
  - now rewrite (isdir_entry _ _ _ _ H), E.
Qed.

Lemma for_each_prune_item src P l :
  forall s cur,
    lookup (replica s) P = Some (Dir cur) ->
    exists s',
      for_each (prune_item src P) l s = Ok tt s'
      /\ replica s' = subst (replica s) P (Dir (pruned src l cur))
      /\ logged s' = logged s ++ prune_events src P l cur.
Proof.
  induction l as [|y l IH]; intros s cur H.
  - exists s. simpl. rewrite app_nil_r, (subst_id _ _ _ H). auto.
  - rewrite for_each_cons, (prune_item_entry _ _ _ _ _ H). simpl.
    destruct (deletable src (child cur y) y).
    + set (s1 := mkState _ _ _).
      destruct (IH s1 (unlink y cur)) as (s' & E & Hr & Hl).
      { simpl. eapply lookup_subst; eauto. }
      exists s'. split; auto. rewrite Hr, Hl. simpl.
      rewrite (subst_subst _ _ _ _ _ H). now rewrite <- app_assoc.
    + apply IH; auto.
Qed.

Lemma rep_to_src_entry src P s res :
  lookup (replica s) P = Some (Dir res) ->
  exists s',
    rep_to_src src P s = Ok tt s'
    /\ replica s' = subst (replica s) P (Dir (pruned src (map fst res) res))
    /\ logged s' = logged s ++ prune_events src P (map fst res) res.
Proof.
  intros H. unfold rep_to_src, bind, get_dir_content. simpl resolve.
  rewrite H. now apply for_each_prune_item.
Qed.

Lemma deletable_None src y : deletable src None y = false.
Proof. unfold deletable. now rewrite andb_false_r. Qed.

Lemma child_pruned src l :
  forall cur y,
    child (pruned src l cur) y =
    if existsb (String.eqb y) l && deletable src (child cur y) y
    then None else child cur y.
Proof.
  induction l as [|x l IH]; intros cur y; simpl; auto.
  rewrite IH. destruct (String.eqb y x) eqn:E; simpl.
  - apply String.eqb_eq in E. subst x.
    destruct (deletable src (child cur y) y) eqn:D.
    + rewrite child_unlink_same, deletable_None.
      now rewrite andb_false_r.
    + rewrite D. now rewrite andb_false_r.
  - apply String.eqb_neq in E.
    destruct (deletable src (child cur x) x); auto.
    rewrite child_unlink_other by congruence. reflexivity.
Qed.

Lemma child_listed es y :
  child es y <> None -> existsb (String.eqb y) (map fst es) = true.
Proof.
  intros H. apply existsb_exists. exists y. split.
  - destruct (in_dec string_dec y (map fst es)) as [|Hn]; auto.
    now apply notin_child_None in Hn.
  - apply String.eqb_refl.
Qed.

Lemma child_pruned_listing src res y :
  child (pruned src (map fst res) res) y =
  if deletable src (child res y) y then None else child res y.
Proof.
  rewrite child_pruned.
  destruct (child res y) eqn:E.
  - rewrite child_listed by congruence. reflexivity.
  - now rewrite deletable_None, andb_false_r.
Qed.

Lemma pruned_stable src P l cur :
  (forall y, deletable src (child cur y) y = false) ->
  pruned src l cur = cur /\ prune_events src P l cur = [].
Proof.
  intros H. induction l as [|x l IH]; simpl; auto.
  now rewrite H.
Qed.

Lemma is_prefix_refl p : is_prefix p p = true.
Proof. induction p; simpl; auto. now rewrite String.eqb_refl. Qed.

Lemma is_prefix_snoc P x y :
  is_prefix (P ++ [x]) (P ++ [y]) = String.eqb x y.
Proof.
  induction P as [|z P IH]; simpl.
  - now rewrite andb_true_r.
  - now rewrite String.eqb_refl.
Qed.

Lemma events_under_prune src P l :
  forall cur y,
    events_under (P ++ [y]) (prune_events src P l cur) =
    if existsb (String.eqb y) l && deletable src (child cur y) y
    then [("Deleted", P ++ [y])] else [].
Proof.
  unfold events_under.
  induction l as [|x l IH]; intros cur y; simpl; auto.
  destruct (String.eqb y x) eqn:E; simpl.
  - apply String.eqb_eq in E. subst x.
    destruct (deletable src (child cur y) y) eqn:D; simpl.
    + rewrite is_prefix_refl, IH.
      rewrite child_unlink_same, deletable_None.
      now rewrite andb_false_r.
    + rewrite IH, D. now rewrite andb_false_r.
  - destruct (deletable src (child cur x) x); simpl.
    + rewrite is_prefix_snoc, E, IH.
      apply String.eqb_neq in E.
      rewrite child_unlink_other by congruence. reflexivity.
    + apply IH.
Qed.

(** ** Pass 1 on a mirrored directory *)

Lemma sync_item_idle x t P s res :
  pass1_idle_spec t ->
  lookup (replica s) P = Some (Dir res) ->
  mirrored (Dir [(x, t)]) (Dir res) = true ->
  no_empty_file t = true ->
  exists s',
    sync_item P (x, t) s = Ok tt s'
    /\ replica s' = replica s /\ logged s' = logged s.
Proof.
  intros IH H Hm Hne.
  destruct t as [c|sub| |].
  - simpl in Hm. rewrite andb_true_r in Hm.
    destruct (child res x) as [[c'| | |]|] eqn:E; try discriminate.
    destruct (synchronize_file_entry c P x s res H) as (s' & E' & Hr & Hl).
    { rewrite E. auto. }
    exists s'. rewrite sync_item_file. split; auto.
    unfold file_synced in Hr. unfold file_events in Hl.
    simpl in Hne. apply negb_true_iff in Hne.
    rewrite Hne, E, Hm in Hr, Hl.
    rewrite app_nil_r in Hl. rewrite (subst_id _ _ _ H) in Hr. auto.
  - assert (Hx : exists rsub, child res x = Some (Dir rsub)
                              /\ mirrored (Dir sub) (Dir rsub) = true).
    { change (match child res x with
              | Some r => mirrored (Dir sub) r
              | None => false
              end && true = true) in Hm.
      rewrite andb_true_r in Hm.
      destruct (child res x) as [[|rsub| |]|]; try discriminate. eauto. }
    destruct Hx as (rsub & E & Hm').
    rewrite sync_item_dir, (synchronize_dir_present _ _ _ _ _ _ H E).
    apply (IH (P ++ [x]) s rsub); auto.
    now rewrite (lookup_snoc _ _ _ _ H).
  - exists s. rewrite sync_item_special. auto.
  - exists s. rewrite sync_item_dangling. auto.
Qed.

Lemma for_each_sync_item_idle ses :
  Forall (fun e => pass1_idle_spec (snd e)) ses ->
  forall P s res,
    lookup (replica s) P = Some (Dir res) ->
    mirrored (Dir ses) (Dir res) = true ->
    no_empty_file (Dir ses) = true ->
    exists s',
      for_each (sync_item P) ses s = Ok tt s'
      /\ replica s' = replica s /\ logged s' = logged s.
Proof.
  induction 1 as [|[x t] ses Ht Hses IH]; intros P s res H Hm Hne.
  - exists s. auto.
  - rewrite mirrored_cons in Hm. apply andb_prop in Hm.
    destruct Hm as [Hm1 Hm2].
    change (no_empty_file t && no_empty_file (Dir ses) = true) in Hne.
    apply andb_prop in Hne. destruct Hne as [Hn1 Hn2].
    destruct (sync_item_idle x t P s res Ht H Hm1 Hn1) as (s1 & E1 & Hr1 & Hl1).
    destruct (IH P s1 res) as (s' & E' & Hr' & Hl'); auto.
    { now rewrite Hr1. }
    exists s'. rewrite for_each_cons, E1. repeat split; congruence.
Qed.

Lemma src_to_rep_idle src : pass1_idle_spec src.
Proof.
  induction src as [c| | |ses IH] using node_tree_ind; try exact I.
  unfold pass1_idle_spec. intros P s res H Hm Hne. rewrite src_to_rep_dir.
  now apply (for_each_sync_item_idle ses IH P s res).
Qed.

(** ** From mirroring to paths *)

Lemma mirrored_entry ses res x t :
  mirrored (Dir ses) (Dir res) = true -> child ses x = Some t ->
  (t = Special \/ t = Dangling)
  \/ exists r, child res x = Some r /\ mirrored t r = true.
Proof.
  intros Hm Hc. apply child_In in Hc.
  simpl in Hm. rewrite forallb_forall in Hm. specialize (Hm _ Hc).
  simpl in Hm. destruct t; auto; right;
    destruct (child res x); try discriminate; eauto.
Qed.

Lemma mirrored_lookup p :
  forall src rep n,
    mirrored src rep = true -> lookup src p = Some n ->
    match n with
    | File c => exists c', lookup rep p = Some (File c')
                           /\ identical c c' = true
    | Dir _ => exists es, lookup rep p = Some (Dir es)
    | Special | Dangling => True
    end.
Proof.
  induction p as [|x q IH]; intros src rep n Hm Hl.
  - simpl in Hl. inversion Hl. subst n.
    destruct src as [c|ses| |]; auto; destruct rep as [c'|res| |];
      try discriminate; simpl; eauto.
  - simpl in Hl. destruct src as [|ses| |]; try discriminate.
    destruct (child ses x) as [t|] eqn:E; try discriminate.
    destruct rep as [|res| |]; try discriminate.
    destruct (mirrored_entry _ _ _ _ Hm E) as [[-> | ->]|(r & Hr & Hm')].
    + destruct q; simpl in Hl; try discriminate.
      inversion Hl. exact I.
    + destruct q; simpl in Hl; try discriminate.
      inversion Hl. exact I.
    + specialize (IH t r n Hm' Hl). simpl. now rewrite Hr.
Qed.

(** * The claims of the specification *)

(** C4.  The change detector: for two existing regular files,
    [same_files] answers [false] as soon as the byte lengths differ, and
    then reads neither file; when the lengths are equal it reads both
    whole files and answers [true] exactly when their MD5 digests (16
    bytes, 32 hexadecimal digits: 128 bits) are equal.  In either case
    the replica tree and the log are left as they were. *)
Theorem same_files_change_detector a b c1 c2 s :
  resolve a s = Some (File c1) ->
  resolve b s = Some (File c2) ->
  (List.length c1 <> List.length c2 -> same_files a b s = Ok false s)
  /\ (List.length c1 = List.length c2 ->
      exists r s',
        same_files a b s = Ok r s'
        /\ (r = true <-> MD5.hexdigest c1 = MD5.hexdigest c2)
        /\ calculate_hash a s
           = Ok (MD5.hexdigest c1)
                (mkState (replica s) (logged s) (S (reads s)))
        /\ reads s' = 2 + reads s)
  /\ (forall r s', same_files a b s = Ok r s' ->
        replica s' = replica s /\ logged s' = logged s)
  /\ List.length (MD5.digest c1) = 16
  /\ String.length (MD5.hexdigest c1) = 32.
Proof.
  intros Ha Hb. rewrite (same_files_files a b c1 c2 s Ha Hb).
  split; [|split; [|split; [|split]]].
  - intros Hne. apply Nat.eqb_neq in Hne. now rewrite Hne.
  - intros He. apply Nat.eqb_eq in He. rewrite He.
    eexists _, _. split; [reflexivity|].
    split; [apply String.eqb_eq|].
    split; [now apply calculate_hash_file | reflexivity].
  - intros r s' H.
    destruct (Nat.eqb _ _) in H; inversion H; split; reflexivity.
  - apply digest_length.
  - apply hexdigest_length.
Qed.

Lemma synchronize_file_empty c P x s es :
  List.length c = 0 ->
  lookup (replica s) P = Some (Dir es) ->
  child es x = None \/ is_file (child es x) = true ->
  synchronize_file (InSource (Some (File c))) P x s
  = Ok tt (mkState
             (subst (replica s) P (Dir (put x (File []) (unlink x es))))
             (logged s ++ [("Created empty file", P ++ [x])])
             (reads s)).
Proof.
  intros Hlen H Hc.
  assert (Hx : child es x = None \/ exists c', child es x = Some (File c')).
  { destruct (child es x) as [[c'| | |]|]; eauto;
      destruct Hc; discriminate. }
  clear Hc. unfold synchronize_file, bind.
  rewrite getsize_source_file, Hlen. cbn [Nat.eqb].
  rewrite (path_exists_entry _ _ _ _ H).
  destruct Hx as [E|[c' E]]; rewrite E; simpl.
  - unfold ret. rewrite (open_w_entry _ _ es) by auto.
    now rewrite (unlink_absent _ _ E).
  - rewrite (os_remove_entry _ _ _ _ _ H E eq_refl).
    rewrite (open_w_entry _ _ (unlink x es))
      by (eauto using with_dir_lookup, child_unlink_same).
    now rewrite (with_dir_with_dir _ _ _ _ _ H).
Qed.

(** C5.  A zero-length source file: whether the replica directory has
    no entry under the name or a regular file of any content (an empty
    one included), Pass 1 removes the entry that is there and creates a
    fresh empty file.  The replica directory is left with the old entry
    unlinked and a new empty regular file entered under the name, which
    is not what truncating the old file in place leaves; when there was
    a file, the run passes through the state in which [os.remove] has
    taken it away and nothing is at the path.  Exactly one line,
    "Created empty file", is appended to the log, and no file is
    read. *)
Theorem empty_source_file_recreated c P x s es :
  List.length c = 0 ->
  lookup (replica s) P = Some (Dir es) ->
  child es x = None \/ is_file (child es x) = true ->
  exists s',
    sync_item P (x, File c) s = Ok tt s'
    /\ synchronize_file (InSource (Some (File c))) P x s = Ok tt s'
    /\ replica s'
       = subst (replica s) P (Dir (put x (File []) (unlink x es)))
    /\ (is_file (child es x) = true ->
        exists s1,
          os_remove (P ++ [x]) s = Ok tt s1
          /\ lookup (replica s1) (P ++ [x]) = None
          /\ (open_w (P ++ [x]) ;; log "Created empty file" (P ++ [x])) s1
             = Ok tt s')
    /\ lookup (replica s') (P ++ [x]) = Some (File [])
    /\ logged s' = logged s ++ [("Created empty file", P ++ [x])]
    /\ reads s' = reads s.
Proof.
  intros Hlen H Hc. eexists. rewrite sync_item_file.
  rewrite (synchronize_file_empty c P x s es Hlen H Hc).
  split; [reflexivity|]. split; [reflexivity|]. split; [reflexivity|].
  split; [|split; [|split; reflexivity]].
  - intros Hf.
    destruct (child es x) as [[c'| | |]|] eqn:E; try discriminate.
    exists (with_dir P (unlink x es) s).
    split; [exact (os_remove_entry _ _ _ _ _ H E eq_refl)|].
    assert (H1 : lookup (replica (with_dir P (unlink x es) s)) P
                 = Some (Dir (unlink x es)))
      by (eauto using with_dir_lookup).
    split.
    + rewrite (lookup_snoc _ _ _ _ H1). apply child_unlink_same.
    + unfold bind. rewrite (open_w_entry _ _ (unlink x es))
        by (auto using child_unlink_same).
      now rewrite (with_dir_with_dir _ _ _ _ _ H).
  - simpl. erewrite lookup_snoc by (eapply lookup_subst; eauto).
    apply child_put_same.
Qed.

(** C6.  A non-empty source file whose replica entry is a regular file:
    when the change detector answers that the two differ, Pass 1 gives
    the replica file the source's content and logs exactly one
    "Updated" line; when it answers that they are the same, the replica
    tree and the log stay as they were. *)
Theorem nonempty_source_file_updated c c' P x s es :
  List.length c <> 0 ->
  lookup (replica s) P = Some (Dir es) ->
  child es x = Some (File c') ->
  exists same s0 s',
    same_files (InSource (Some (File c))) (InReplica (P ++ [x])) s
    = Ok same s0
    /\ sync_item P (x, File c) s = Ok tt s'
    /\ (same = false ->
        lookup (replica s') (P ++ [x]) = Some (File c)
        /\ logged s' = logged s ++ [("Updated", P ++ [x])])
    /\ (same = true -> replica s' = replica s /\ logged s' = logged s).
Proof.
  intros Hlen H Hc.
  destruct (synchronize_file_entry c P x s es H) as (s' & E & Hr & Hl).
  { rewrite Hc. auto. }
  apply Nat.eqb_neq in Hlen.
  unfold file_synced in Hr. unfold file_events in Hl.
  rewrite Hlen, Hc in Hr, Hl.
  rewrite (same_files_files _ _ c c') by
    (simpl; auto; now rewrite (lookup_snoc _ _ _ _ H)).
  unfold identical in Hr, Hl.
  destruct (Nat.eqb (List.length c) (List.length c')); simpl in Hr, Hl.
  - eexists _, _, s'. split; [reflexivity|]. rewrite sync_item_file.
    split; auto.
    destruct (String.eqb (MD5.hexdigest c) (MD5.hexdigest c')).
    + split; [discriminate|]. intros _.
      rewrite app_nil_r in Hl. rewrite (subst_id _ _ _ H) in Hr. auto.
    + split; [|discriminate]. intros _. split; auto.
      rewrite Hr. erewrite lookup_snoc by (eapply lookup_subst; eauto).
      apply child_put_same.
  - eexists _, _, s'. split; [reflexivity|]. rewrite sync_item_file.
    split; auto. split; [|discriminate]. intros _. split; auto.
    rewrite Hr. erewrite lookup_snoc by (eapply lookup_subst; eauto).
    apply child_put_same.
Qed.

(** C9.  A source entry that is neither a regular file nor a directory
    (a special file, a dangling symbolic link) is skipped by Pass 1: the
    body of the loop returns the state it was given (no replica path
    created, changed or deleted, nothing logged), and the whole pass
    gives the result it gives without that entry. *)
Theorem pass1_skips_special pre x post P s :
  sync_item P (x, Special) s = Ok tt s
  /\ sync_item P (x, Dangling) s = Ok tt s
  /\ src_to_rep (Dir (pre ++ (x, Special) :: post)) P s
     = src_to_rep (Dir (pre ++ post)) P s
  /\ src_to_rep (Dir (pre ++ (x, Dangling) :: post)) P s
     = src_to_rep (Dir (pre ++ post)) P s.
Proof.
  split; [reflexivity|]. split; [reflexivity|].
  rewrite !src_to_rep_dir, !for_each_app.
  destruct (for_each (sync_item P) pre s); auto.
Qed.

(** ** The two passes together *)

Lemma lookup_single es y : lookup (Dir es) [y] = child es y.
Proof. simpl. now destruct (child es y). Qed.

Lemma deletable_listed ses o y t :
  well_formed (Dir ses) = true -> In (y, t) ses ->
  is_file (Some t) || is_dir (Some t) = true ->
  deletable (Dir ses) o y = false.
Proof.
  intros Hwf Hin Ht. simpl in Hwf. apply andb_prop in Hwf.
  destruct Hwf as [Hd _]. unfold deletable.
  rewrite lookup_single, (distinct_child _ _ _ Hd Hin).
  now destruct t.
Qed.

Lemma mirrored_ext_typed ses res res' :
  (forall y t, In (y, t) ses ->
               is_file (Some t) || is_dir (Some t) = true ->
               child res' y = child res y) ->
  mirrored (Dir ses) (Dir res') = mirrored (Dir ses) (Dir res).
Proof.
  induction ses as [|[k t] ses IH]; intros H; auto.
  rewrite (mirrored_cons _ _ res'), (mirrored_cons _ _ res).
  rewrite IH by (intros y t' Hin; apply H; now right).
  destruct t; simpl; auto;
    rewrite (H k _ (or_introl eq_refl) eq_refl); reflexivity.
Qed.

Lemma mirrored_pruned ses res :
  well_formed (Dir ses) = true ->
  mirrored (Dir ses) (Dir res) = true ->
  mirrored (Dir ses) (Dir (pruned (Dir ses) (map fst res) res)) = true.
Proof.
  intros Hwf Hm. rewrite <- Hm. apply mirrored_ext_typed.
  intros y t Hin Ht. rewrite child_pruned_listing.
  now rewrite (deletable_listed _ _ _ _ Hwf Hin Ht).
Qed.

Lemma synchronize_passes ses P s res :
  lookup (replica s) P = Some (Dir res) ->
  well_formed (Dir ses) = true ->
  compatible (Dir ses) (Dir res) = true ->
  exists s' res1,
    synchronize (Dir ses) P s = Ok tt s'
    /\ mirrored (Dir ses) (Dir res1) = true
    /\ (forall y, ~ In y (map fst ses) -> child res1 y = child res y)
    /\ replica s'
       = subst (replica s) P
           (Dir (pruned (Dir ses) (map fst res1) res1)).
Proof.
  intros H Hwf Hc.
  destruct (src_to_rep_mirrors (Dir ses) P s res H Hwf Hc)
    as (s1 & E1 & res1 & Hr1 & Hm1 & Hf1).
  assert (H1 : lookup (replica s1) P = Some (Dir res1))
    by (rewrite Hr1; eapply lookup_subst; eauto).
  destruct (rep_to_src_entry (Dir ses) P s1 res1 H1) as (s' & E2 & Hr2 & _).
  exists s', res1. unfold synchronize, bind. rewrite E1.
  repeat split; auto.
  rewrite Hr2, Hr1. eapply subst_subst; eauto.
Qed.

(** Pass 2 never looks below a name that exists in the source: whatever
    the replica holds there stays. *)
Lemma rep_to_src_keeps_common src P s res y :
  lookup (replica s) P = Some (Dir res) ->
  os_stat (lookup src [y]) <> None ->
  exists s',
    rep_to_src src P s = Ok tt s'
    /\ forall q, lookup (replica s') (P ++ y :: q)
                 = lookup (replica s) (P ++ y :: q).
Proof.
  intros H Hy.
  destruct (rep_to_src_entry src P s res H) as (s' & E & Hr & _).
  exists s'. split; auto. intros q. rewrite !lookup_app, H, Hr.
  erewrite lookup_subst by eauto. simpl.
  rewrite child_pruned_listing. unfold deletable.
  destruct (os_stat (lookup src [y])); [reflexivity | congruence].
Qed.

(** C1, as amended.  From a well-formed source directory and a replica
    directory that has no type conflict with it, [synchronize] ends
    normally; afterwards every regular file of the source has a regular
    file at the same path of the replica with the same length and the
    same digest, every directory of the source has a directory at the
    same path, and nothing is left at or below a name of the replica
    root that named a regular file or a directory there and names
    nothing in the source root. *)
Theorem synchronize_converges ses P s res :
  lookup (replica s) P = Some (Dir res) ->
  well_formed (Dir ses) = true ->
  compatible (Dir ses) (Dir res) = true ->
  exists s',
    synchronize (Dir ses) P s = Ok tt s'
    /\ (forall p c,
          lookup (Dir ses) p = Some (File c) ->
          exists c', lookup (replica s') (P ++ p) = Some (File c')
                     /\ identical c c' = true)
    /\ (forall p es,
          lookup (Dir ses) p = Some (Dir es) ->
          exists es', lookup (replica s') (P ++ p) = Some (Dir es'))
    /\ (forall y q,
          child ses y = None ->
          is_file (child res y) || is_dir (child res y) = true ->
          lookup (replica s') (P ++ y :: q) = None).
Proof.
  intros H Hwf Hc.
  destruct (synchronize_passes ses P s res H Hwf Hc)
    as (s' & res1 & E & Hm & Hf & Hr).
  apply (mirrored_pruned _ _ Hwf) in Hm.
  assert (H' : lookup (replica s') P
               = Some (Dir (pruned (Dir ses) (map fst res1) res1)))
    by (rewrite Hr; eapply lookup_subst; eauto).
  exists s'. split; auto. repeat split.
  - intros p c Hp. rewrite lookup_app, H'.
    apply (mirrored_lookup p _ _ _ Hm Hp).
  - intros p es Hp. rewrite lookup_app, H'.
    apply (mirrored_lookup p _ _ _ Hm Hp).
  - intros y q Hy Hk. rewrite lookup_app, H'. simpl.
    rewrite child_pruned_listing.
    rewrite (Hf y) by (now apply child_None_notin).
    unfold deletable. rewrite lookup_single, Hy, Hk. reflexivity.
Qed.

(** C3, as amended.  From a well-formed source directory without
    zero-length files and a replica directory that has no type conflict
    with it, two consecutive runs of [synchronize] both end normally and
    the second one leaves the replica tree and the log exactly as the
    first one left them. *)
Theorem synchronize_idempotent ses P s res :
  lookup (replica s) P = Some (Dir res) ->
  well_formed (Dir ses) = true ->
  compatible (Dir ses) (Dir res) = true ->
  no_empty_file (Dir ses) = true ->
  exists s1 s2,
    synchronize (Dir ses) P s = Ok tt s1
    /\ synchronize (Dir ses) P s1 = Ok tt s2
    /\ replica s2 = replica s1
    /\ logged s2 = logged s1.
Proof.
  intros H Hwf Hc Hne.
  destruct (synchronize_passes ses P s res H Hwf Hc)
    as (s1 & res1 & E & Hm & Hf & Hr).
  apply (mirrored_pruned _ _ Hwf) in Hm.
  set (res2 := pruned (Dir ses) (map fst res1) res1) in *.
  assert (H1 : lookup (replica s1) P = Some (Dir res2))
    by (rewrite Hr; eapply lookup_subst; eauto).
  destruct (src_to_rep_idle (Dir ses) P s1 res2 H1 Hm Hne)
    as (s1' & E1 & Hr1 & Hl1).
  assert (H1' : lookup (replica s1') P = Some (Dir res2)) by congruence.
  destruct (rep_to_src_entry (Dir ses) P s1' res2 H1') as (s2 & E2 & Hr2 & Hl2).
  assert (Hstable : forall y, deletable (Dir ses) (child res2 y) y = false).
  { intros y. unfold res2. rewrite child_pruned_listing.
    destruct (deletable (Dir ses) (child res1 y) y) eqn:D; auto.
    apply deletable_None. }
  destruct (pruned_stable (Dir ses) P (map fst res2) res2 Hstable) as [Hp He].
  exists s1, s2. split; auto. split.
  { unfold synchronize, bind. now rewrite E1. }
  split.
  - rewrite Hr2, Hp, Hr1. now apply subst_id.
  - rewrite Hl2, He, app_nil_r. exact Hl1.
Qed.

(** C7.  A replica directory whose name has no entry in the source:
    Pass 2 ends normally, nothing is left at the directory's path or at
    any path below it, and of the lines that the pass logs exactly one,
    "Deleted" with the directory's own path, names that path or a path
    below it. *)
Theorem stale_directory_deleted src P s res x sub :
  lookup (replica s) P = Some (Dir res) ->
  child res x = Some (Dir sub) ->
  lookup src [x] = None ->
  exists s' evs,
    rep_to_src src P s = Ok tt s'
    /\ logged s' = logged s ++ evs
    /\ events_under (P ++ [x]) evs = [("Deleted", P ++ [x])]
    /\ forall q, lookup (replica s') (P ++ x :: q) = None.
Proof.
  intros H Hc Hs.
  destruct (rep_to_src_entry src P s res H) as (s' & E & Hr & Hl).
  assert (D : deletable src (child res x) x = true)
    by (unfold deletable; now rewrite Hs, Hc).
  exists s', (prune_events src P (map fst res) res).
  repeat split; auto.
  - rewrite events_under_prune, D.
    rewrite child_listed by congruence. reflexivity.
  - intros q. rewrite lookup_app, Hr.
    erewrite lookup_subst by eauto. simpl.
    now rewrite child_pruned_listing, D.
Qed.

(** C10, as amended.  Pass 2 decides by what [os.path.exists] finds
    under the name in the source, not by type: a replica entry that is
    a regular file or a directory is gone after the pass exactly when
    the source directory has under its name no entry, or only a
    dangling symbolic link, and stays as it was otherwise, whatever the
    type of the source entry; a replica entry that is neither a regular
    file nor a directory always stays. *)
Theorem pass2_deletes_by_name src P s res x r :
  lookup (replica s) P = Some (Dir res) ->
  child res x = Some r ->
  exists s',
    rep_to_src src P s = Ok tt s'
    /\ (is_file (Some r) || is_dir (Some r) = true ->
        (lookup (replica s') (P ++ [x]) = None
         <-> os_stat (lookup src [x]) = None))
    /\ (os_stat (lookup src [x]) <> None ->
        lookup (replica s') (P ++ [x]) = Some r)
    /\ (is_file (Some r) || is_dir (Some r) = false ->
        lookup (replica s') (P ++ [x]) = Some r).
Proof.
  intros H Hc.
  destruct (rep_to_src_entry src P s res H) as (s' & E & Hr & _).
  assert (Hx : lookup (replica s') (P ++ [x])
               = if deletable src (Some r) x then None else Some r).
  { erewrite lookup_snoc by (rewrite Hr; eapply lookup_subst; eauto).
    now rewrite child_pruned_listing, Hc. }
  exists s'. split; auto. rewrite Hx. unfold deletable.
  destruct (os_stat (lookup src [x])) as [n|]; cbn [is_some negb andb].
  - split; [|split]; auto.
    intros _. split; discriminate.
  - destruct (is_file (Some r) || is_dir (Some r)).
    + split; [|split]; try discriminate; try congruence.
      intros _. split; reflexivity.
    + split; [|split]; try discriminate; try congruence; auto.
Qed.

(** ** Exceptions *)

Lemma sys_for_each_cons {A} (f : A -> sys unit) x l t s :
  sys_for_each f (x :: l) t s =
  match f x t s with
  | Returned _ s' t' => sys_for_each f l t' s'
  | Raised e s' => Raised e s'
  end.
Proof. reflexivity. Qed.

Lemma sys_for_each_app {A} (f : A -> sys unit) l1 l2 t s :
  sys_for_each f (l1 ++ l2) t s =
  match sys_for_each f l1 t s with
  | Returned _ s' t' => sys_for_each f l2 t' s'
  | Raised e s' => Raised e s'
  end.
Proof.
  revert t s. induction l1 as [|x l1 IH]; intros t s; simpl; auto.
  unfold sys_bind. destruct (f x t s); auto.
Qed.

Lemma sys_for_each_raises {A} (f : A -> sys unit) pre x post t s s1 t1 e s' :
  sys_for_each f pre t s = Returned tt s1 t1 -> f x t1 s1 = Raised e s' ->
  sys_for_each f (pre ++ x :: post) t s = Raised e s'.
Proof.
  intros Hpre Hx. rewrite sys_for_each_app, Hpre, sys_for_each_cons.
  now rewrite Hx.
Qed.

Lemma calculate_hash_env_raises l t s e s' :
  read_bytes_env l t s = Raised e s' -> calculate_hash_env l t s = Raised e s'.
Proof. intros H. unfold calculate_hash_env, sys_bind. now rewrite H. Qed.

Lemma calculate_hash_env_returns l t s c s1 t1 :
  read_bytes_env l t s = Returned c s1 t1 ->
  calculate_hash_env l t s = Returned (MD5.hexdigest c) s1 t1.
Proof. intros H. unfold calculate_hash_env, sys_bind. now rewrite H. Qed.

Lemma same_files_propagates a b t s e s' :
  detector_raises a b t s e s' -> same_files_env a b t s = Raised e s'.
Proof.
  intros [H | n s1 t1 Ha Hb | n s1 t1 s2 t2 Ha Hb Hr
          | n s1 t1 s2 t2 c s3 t3 Ha Hb Hr1 Hr2];
    unfold same_files_env, sys_bind.
  - now rewrite H.
  - now rewrite Ha, Hb.
  - rewrite Ha, Hb, Nat.eqb_refl. cbn [negb].
    now rewrite (calculate_hash_env_raises _ _ _ _ _ Hr).
  - rewrite Ha, Hb, Nat.eqb_refl. cbn [negb].
    rewrite (calculate_hash_env_returns _ _ _ _ _ _ Hr1).
    now rewrite (calculate_hash_env_raises _ _ _ _ _ Hr2).
Qed.

Lemma synchronize_file_propagates src_file P x t s e s' :
  file_raises src_file P x t s e s' ->
  synchronize_file_env src_file P x t s = Raised e s'.
Proof.
  intros [H
         | s1 t1 Hs Hp H
         | s1 t1 s2 t2 Hs Hp Hr H
         | s1 t1 s2 t2 s3 t3 Hs Hp Hr Ho H
         | s1 t1 Hs Hp H
         | s1 t1 s2 t2 Hs Hp Ho H
         | n s1 t1 Hs Hp H
         | n s1 t1 s2 t2 Hs Hp Hc H
         | n s1 t1 Hs Hp H
         | n s1 t1 s2 t2 Hs Hp Hd H
         | n s1 t1 s2 t2 s3 t3 Hs Hp Hd Hc H];
    unfold synchronize_file_env, sys_bind;
    try (now rewrite H);
    rewrite Hs; cbn [Nat.eqb]; rewrite Hp; cbn [negb].
  - now rewrite H.
  - now rewrite Hr, H.
  - now rewrite Hr, Ho, H.
  - unfold sys_ret. now rewrite H.
  - unfold sys_ret. now rewrite Ho, H.
  - now rewrite H.
  - now rewrite Hc, H.
  - now rewrite (same_files_propagates _ _ _ _ _ _ H).
  - rewrite Hd. cbn [negb]. now rewrite H.
  - rewrite Hd. cbn [negb]. now rewrite Hc, H.
Qed.

Lemma src_to_rep_env_dir ses P t s :
  src_to_rep_env (Dir ses) P t s =
  match get_dir_content_env (InSource (Some (Dir ses))) t s with
  | Returned _ s0 t0 => sys_for_each (sync_item_env P) ses t0 s0
  | Raised e s' => Raised e s'
  end.
Proof. reflexivity. Qed.

Lemma sync_item_env_file x c P t s :
  sync_item_env P (x, File c) t s
  = synchronize_file_env (InSource (Some (File c))) P x t s.
Proof. reflexivity. Qed.

Lemma sync_item_env_dir x sub P t s :
  sync_item_env P (x, Dir sub) t s = synchronize_dir_env (Dir sub) P x t s.
Proof. reflexivity. Qed.

Lemma src_to_rep_propagates src P t s e s' :
  pass1_raises src P t s e s' -> src_to_rep_env src P t s = Raised e s'.
Proof.
  induction 1 as [src P t s e s' Hd
                 | pre x c post P t s l s0 t0 s1 t1 e s' Hl Hpre Hf
                 | pre x sub post P t s l s0 t0 s1 t1 e s' Hl Hpre Hp Hm
                 | pre x sub post P t s l s0 t0 s1 t1 s2 t2 e s'
                       Hl Hpre Hp Hm Hg
                 | pre x sub post P t s l s0 t0 s1 t1 s2 t2 s3 t3 e s'
                       Hl Hpre Hp Hm Hg _ IH
                 | pre x sub post P t s l s0 t0 s1 t1 e s' Hl Hpre Hp _ IH].
  - destruct src; simpl; unfold sys_bind; now rewrite Hd.
  - rewrite src_to_rep_env_dir, Hl.
    apply (sys_for_each_raises _ _ _ _ _ _ _ _ _ _ Hpre).
    rewrite sync_item_env_file. now apply synchronize_file_propagates.
  - rewrite src_to_rep_env_dir, Hl.
    apply (sys_for_each_raises _ _ _ _ _ _ _ _ _ _ Hpre).
    rewrite sync_item_env_dir.
    unfold synchronize_dir_env, synchronize_dir_with_env, sys_bind.
    rewrite Hp. cbn [negb]. now rewrite Hm.
  - rewrite src_to_rep_env_dir, Hl.
    apply (sys_for_each_raises _ _ _ _ _ _ _ _ _ _ Hpre).
    rewrite sync_item_env_dir.
    unfold synchronize_dir_env, synchronize_dir_with_env, sys_bind.
    rewrite Hp. cbn [negb]. now rewrite Hm, Hg.
  - rewrite src_to_rep_env_dir, Hl.
    apply (sys_for_each_raises _ _ _ _ _ _ _ _ _ _ Hpre).
    rewrite sync_item_env_dir.
    unfold synchronize_dir_env, synchronize_dir_with_env, sys_bind.
    rewrite Hp. cbn [negb]. rewrite Hm, Hg. exact IH.
  - rewrite src_to_rep_env_dir, Hl.
    apply (sys_for_each_raises _ _ _ _ _ _ _ _ _ _ Hpre).
    rewrite sync_item_env_dir.
    unfold synchronize_dir_env, synchronize_dir_with_env, sys_bind.
    rewrite Hp. cbn [negb]. unfold sys_ret. exact IH.
Qed.

Lemma rep_to_src_propagates src P t s e s' :
  pass2_raises src P t s e s' -> rep_to_src_env src P t s = Raised e s'.
Proof.
  intros [H
         | pre y post s0 t0 s1 t1 Hl Hpre Hp Hf H
         | pre y post s0 t0 s1 t1 s2 t2 Hl Hpre Hp Hf Hr H
         | pre y post s0 t0 s1 t1 Hl Hpre Hp Hf Hd H
         | pre y post s0 t0 s1 t1 s2 t2 Hl Hpre Hp Hf Hd Hr H];
    unfold rep_to_src_env, sys_bind.
  - now rewrite H.
  - rewrite Hl. apply (sys_for_each_raises _ _ _ _ _ _ _ _ _ _ Hpre).
    unfold prune_item_env, sys_bind. rewrite Hp. cbn [negb].
    rewrite Hf. now rewrite H.
  - rewrite Hl. apply (sys_for_each_raises _ _ _ _ _ _ _ _ _ _ Hpre).
    unfold prune_item_env, sys_bind. rewrite Hp. cbn [negb].
    rewrite Hf. now rewrite Hr, H.
  - rewrite Hl. apply (sys_for_each_raises _ _ _ _ _ _ _ _ _ _ Hpre).
    unfold prune_item_env, sys_bind. rewrite Hp. cbn [negb].
    rewrite Hf, Hd. now rewrite H.
  - rewrite Hl. apply (sys_for_each_raises _ _ _ _ _ _ _ _ _ _ Hpre).
    unfold prune_item_env, sys_bind. rewrite Hp. cbn [negb].
    rewrite Hf, Hd. now rewrite Hr, H.
Qed.

(** Where the environment lets every call through, the program in the
    environment is the program of the other theorems. *)

Lemma agrees_ret {A} (a : A) : agrees (ret a) (sys_ret a).
Proof. intros t s. now exists t. Qed.

Lemma agrees_bind {A B} (m : io A) (m' : sys A) (k : A -> io B)
    (k' : A -> sys B) :
  agrees m m' -> (forall a, agrees (k a) (k' a)) ->
  agrees (bind m k) (sys_bind m' k').
Proof.
  intros Hm Hk t s. specialize (Hm t s). unfold bind, sys_bind.
  destruct (m s) as [a s1|e s1].
  - destruct Hm as [t1 Hm]. rewrite Hm. apply Hk.
  - now rewrite Hm.
Qed.

Lemma agrees_if {A} (b : bool) (m1 m2 : io A) (m1' m2' : sys A) :
  agrees m1 m1' -> agrees m2 m2' ->
  agrees (if b then m1 else m2) (if b then m1' else m2').
Proof. now destruct b. Qed.

Lemma agrees_test (m : io bool) : agrees m (test m).
Proof.
  intros t s. unfold test. destruct (m s) as [b s1|e s1]; eauto.
Qed.

Lemma agrees_primitive {A} (c : call) (m : io A) :
  (forall t c s, fault t c s = None) -> agrees m (primitive c m).
Proof.
  intros Hnone t s. unfold primitive. rewrite Hnone.
  destruct (m s) as [a s1|e s1]; eauto.
Qed.

Lemma agrees_for_each {A} (f : A -> io unit) (f' : A -> sys unit) l :
  (forall x, In x l -> agrees (f x) (f' x)) ->
  agrees (for_each f l) (sys_for_each f' l).
Proof.
  induction l as [|x l IH]; intros Hf.
  - apply agrees_ret.
  - simpl. apply agrees_bind.
    + apply Hf. now left.
    + intros _. apply IH. intros y Hy. apply Hf. now right.
Qed.

Lemma same_files_env_agrees a b :
  (forall t c s, fault t c s = None) ->
  agrees (same_files a b) (same_files_env a b).
Proof.
  intros Hnone.
  assert (Hh : forall l, agrees (calculate_hash l) (calculate_hash_env l)).
  { intros l. apply agrees_bind; [now apply agrees_primitive|].
    intros c. apply agrees_ret. }
  apply agrees_bind; [now apply agrees_primitive|]. intros n.
  apply agrees_bind; [now apply agrees_primitive|]. intros n'.
  apply agrees_if; [apply agrees_ret|].
  apply agrees_bind; [apply Hh|]. intros h.
  apply agrees_bind; [apply Hh|]. intros h'. apply agrees_ret.
Qed.

Lemma synchronize_file_env_agrees src_file P x :
  (forall t c s, fault t c s = None) ->
  agrees (synchronize_file src_file P x) (synchronize_file_env src_file P x).
Proof.
  intros Hnone.
  apply agrees_bind; [now apply agrees_primitive|]. intros n.
  apply agrees_if.
  - apply agrees_bind; [apply agrees_test|]. intros b.
    apply agrees_bind.
    { apply agrees_if; [now apply agrees_primitive | apply agrees_ret]. }
    intros _. apply agrees_bind; now (try intros _; apply agrees_primitive).
  - apply agrees_bind; [apply agrees_test|]. intros b.
    apply agrees_if.
    + apply agrees_bind; now (try intros _; apply agrees_primitive).
    + apply agrees_bind; [now apply same_files_env_agrees|]. intros same.
      apply agrees_if; [|apply agrees_ret].
      apply agrees_bind; now (try intros _; apply agrees_primitive).
Qed.

Lemma src_to_rep_env_agrees src :
  (forall t c s, fault t c s = None) ->
  forall P, agrees (src_to_rep src P) (src_to_rep_env src P).
Proof.
  intros Hnone.
  induction src as [c| | |ses IH] using node_tree_ind; intros P;
    try (simpl; apply agrees_bind;
         [now apply agrees_primitive | intros _; apply agrees_ret]).
  intros t s. rewrite src_to_rep_dir, src_to_rep_env_dir.
  unfold get_dir_content_env, primitive. rewrite Hnone. simpl.
  apply agrees_for_each. intros [x n] Hin.
  rewrite Forall_forall in IH. specialize (IH _ Hin). simpl in IH.
  unfold sync_item, sync_item_with, sync_item_env, sync_item_with_env.
  apply agrees_bind; [apply agrees_test|]. intros f.
  apply agrees_if; [now apply synchronize_file_env_agrees|].
  apply agrees_bind; [apply agrees_test|]. intros d.
  apply agrees_if; [|apply agrees_ret].
  apply agrees_bind; [apply agrees_test|]. intros b.
  apply agrees_bind.
  - apply agrees_if; [|apply agrees_ret].
    apply agrees_bind; now (try intros _; apply agrees_primitive).
  - intros _. apply IH.
Qed.

Lemma rep_to_src_env_agrees src P :
  (forall t c s, fault t c s = None) ->
  agrees (rep_to_src src P) (rep_to_src_env src P).
Proof.
  intros Hnone.
  apply agrees_bind; [now apply agrees_primitive|]. intros l.
  apply agrees_for_each. intros y _.
  apply agrees_bind; [apply agrees_test|]. intros b.
  apply agrees_if; [|apply agrees_ret].
  apply agrees_bind; [apply agrees_test|]. intros f.
  apply agrees_if.
  - apply agrees_bind; now (try intros _; apply agrees_primitive).
  - apply agrees_bind; [apply agrees_test|]. intros d.
    apply agrees_if; [|apply agrees_ret].
    apply agrees_bind; now (try intros _; apply agrees_primitive).
Qed.

Lemma synchronize_env_agrees src P :
  (forall t c s, fault t c s = None) ->
  agrees (synchronize src P) (synchronize_env src P).
Proof.
  intros Hnone. apply agrees_bind.
  - now apply src_to_rep_env_agrees.
  - intros _. now apply rep_to_src_env_agrees.
Qed.

(** Conversely, an exception of the program is the exception of one of
    its calls. *)

Lemma sys_for_each_raised {A} (f : A -> sys unit) l :
  forall t s e s',
    sys_for_each f l t s = Raised e s' ->
    exists pre x post s1 t1,
      l = pre ++ x :: post
      /\ sys_for_each f pre t s = Returned tt s1 t1
      /\ f x t1 s1 = Raised e s'.
Proof.
  induction l as [|x l IH]; intros t s e s' H; [discriminate|].
  rewrite sys_for_each_cons in H.
  destruct (f x t s) as [[] s1 t1|e1 s1] eqn:Hx.
  - destruct (IH _ _ _ _ H) as (pre & y & post & s2 & t2 & -> & Hpre & Hy).
    exists (x :: pre), y, post, s2, t2. split; [reflexivity|].
    split; auto. rewrite sys_for_each_cons. now rewrite Hx.
  - inversion H. subst e1 s1.
    exists [], x, l, s, t. repeat split; auto.
Qed.

Lemma calculate_hash_env_raised l t s e s' :
  calculate_hash_env l t s = Raised e s' -> read_bytes_env l t s = Raised e s'.
Proof.
  unfold calculate_hash_env, sys_bind, sys_ret.
  destruct (read_bytes_env l t s); intros H;
    [discriminate H | inversion H; reflexivity].
Qed.

Lemma calculate_hash_env_returned l t s h s1 t1 :
  calculate_hash_env l t s = Returned h s1 t1 ->
  exists c, read_bytes_env l t s = Returned c s1 t1.
Proof.
  unfold calculate_hash_env, sys_bind, sys_ret.
  destruct (read_bytes_env l t s) as [c s2 t2|]; [|discriminate].
  intros H. inversion H. subst. now exists c.
Qed.

Lemma same_files_raised a b t s e s' :
  same_files_env a b t s = Raised e s' -> detector_raises a b t s e s'.
Proof.
  unfold same_files_env, sys_bind. intros H.
  destruct (getsize_env a t s) as [n s1 t1|e1 s1] eqn:Ha;
    [|inversion H; subst; now apply dr_size_src].
  destruct (getsize_env b t1 s1) as [n' s2 t2|e2 s2] eqn:Hb;
    [|inversion H; subst; now apply (dr_size_rep _ _ _ _ _ _ n s1 t1)].
  destruct (Nat.eqb n n') eqn:En; cbn [negb] in H; [|discriminate].
  apply Nat.eqb_eq in En. subst n'.
  destruct (calculate_hash_env a t2 s2) as [h s3 t3|e3 s3] eqn:Hh.
  - destruct (calculate_hash_env_returned _ _ _ _ _ _ Hh) as [c Hr].
    destruct (calculate_hash_env b t3 s3) as [h' s4 t4|e4 s4] eqn:Hh';
      [discriminate|].
    inversion H. subst.
    apply (dr_hash_rep _ _ _ _ _ _ n s1 t1 s2 t2 c s3 t3); auto.
    now apply calculate_hash_env_raised.
  - inversion H. subst.
    apply (dr_hash_src _ _ _ _ _ _ n s1 t1 s2 t2); auto.
    now apply calculate_hash_env_raised.
Qed.

Lemma test_path_exists l t s :
  test (path_exists l) t s = Returned (is_some (os_stat (resolve l s))) s t.
Proof. reflexivity. Qed.

Lemma test_isfile l t s :
  test (isfile l) t s = Returned (is_file (os_stat (resolve l s))) s t.
Proof. reflexivity. Qed.

Lemma test_isdir l t s :
  test (isdir l) t s = Returned (is_dir (os_stat (resolve l s))) s t.
Proof. reflexivity. Qed.

Lemma synchronize_file_raised src_file P x t s e s' :
  synchronize_file_env src_file P x t s = Raised e s' ->
  file_raises src_file P x t s e s'.
Proof.
  unfold synchronize_file_env, sys_bind. intros H.
  destruct (getsize_env src_file t s) as [n s1 t1|e1 s1] eqn:Hs;
    [|inversion H; subst; now apply fr_size].
  pose proof (test_path_exists (InReplica (P ++ [x])) t1 s1) as Hp.
  destruct n as [|n]; cbn [Nat.eqb] in H; rewrite Hp in H;
    destruct (is_some (os_stat (resolve (InReplica (P ++ [x])) s1))) eqn:Eb;
    cbn [negb] in H.
  - (* empty, present *)
    destruct (os_remove_env (P ++ [x]) t1 s1) as [[] s2 t2|e2 s2] eqn:Hr;
      [|inversion H; subst; now apply (fr_remove _ _ _ _ _ _ _ s1 t1)].
    destruct (open_w_env (P ++ [x]) t2 s2) as [[] s3 t3|e3 s3] eqn:Ho;
      [|inversion H; subst;
        now apply (fr_open_removed _ _ _ _ _ _ _ s1 t1 s2 t2)].
    now apply (fr_log_removed _ _ _ _ _ _ _ s1 t1 s2 t2 s3 t3).
  - (* empty, absent *)
    unfold sys_ret in H.
    destruct (open_w_env (P ++ [x]) t1 s1) as [[] s2 t2|e2 s2] eqn:Ho;
      [|inversion H; subst; now apply (fr_open _ _ _ _ _ _ _ s1 t1)].
    now apply (fr_log_open _ _ _ _ _ _ _ s1 t1 s2 t2).
  - (* non-empty, present *)
    destruct (same_files_env src_file (InReplica (P ++ [x])) t1 s1)
      as [same s2 t2|e2 s2] eqn:Hd.
    + destruct same; cbn [negb] in H; [discriminate|].
      destruct (copy2_env src_file x (P ++ [x]) t2 s2)
        as [[] s3 t3|e3 s3] eqn:Hc;
        [|inversion H; subst;
          now apply (fr_copy_update _ _ _ _ _ _ _ n s1 t1 s2 t2)].
      now apply (fr_log_update _ _ _ _ _ _ _ n s1 t1 s2 t2 s3 t3).
    + inversion H. subst.
      apply (fr_detector _ _ _ _ _ _ _ n s1 t1); auto.
      now apply same_files_raised.
  - (* non-empty, absent *)
    destruct (copy2_env src_file x (P ++ [x]) t1 s1)
      as [[] s2 t2|e2 s2] eqn:Hc;
      [|inversion H; subst; now apply (fr_copy_new _ _ _ _ _ _ _ n s1 t1)].
    now apply (fr_log_new _ _ _ _ _ _ _ n s1 t1 s2 t2).
Qed.

Lemma src_to_rep_env_not_dir src P t s :
  is_dir (Some src) = false ->
  src_to_rep_env src P t s =
  match get_dir_content_env (InSource (Some src)) t s with
  | Returned _ s0 t0 => Returned tt s0 t0
  | Raised e s' => Raised e s'
  end.
Proof. destruct src; try discriminate; reflexivity. Qed.

Lemma src_to_rep_raised src :
  forall P t s e s',
    src_to_rep_env src P t s = Raised e s' -> pass1_raises src P t s e s'.
Proof.
  induction src as [c| | |ses IH] using node_tree_ind; intros P t s e s' H;
    try (apply p1_listing;
         rewrite src_to_rep_env_not_dir in H by reflexivity;
         destruct (get_dir_content_env _ t s);
         [discriminate H | inversion H; reflexivity]).
  rewrite src_to_rep_env_dir in H.
  destruct (get_dir_content_env (InSource (Some (Dir ses))) t s)
    as [l s0 t0|e0 s0] eqn:Hl;
    [|inversion H; subst; now apply p1_listing].
  destruct (sys_for_each_raised _ _ _ _ _ _ H)
    as (pre & [x n] & post & s1 & t1 & -> & Hpre & Hx).
  rewrite Forall_forall in IH.
  assert (IHn := IH (x, n) (in_elt _ _ _)). simpl in IHn.
  destruct n as [c|sub| |]; try discriminate.
  - rewrite sync_item_env_file in Hx.
    apply (p1_file pre x c post P t s l s0 t0 s1 t1); auto.
    now apply synchronize_file_raised.
  - rewrite sync_item_env_dir in Hx.
    unfold synchronize_dir_env, synchronize_dir_with_env, sys_bind in Hx.
    pose proof (test_path_exists (InReplica (P ++ [x])) t1 s1) as Hp.
    rewrite Hp in Hx.
    destruct (is_some (os_stat (resolve (InReplica (P ++ [x])) s1))) eqn:Eb;
      cbn [negb] in Hx.
    + unfold sys_ret in Hx.
      apply (p1_below pre x sub post P t s l s0 t0 s1 t1); auto.
    + destruct (makedirs_env (P ++ [x]) t1 s1) as [[] s2 t2|e2 s2] eqn:Hm;
        [|inversion Hx; subst;
          now apply (p1_makedirs pre x sub post P t s l s0 t0 s1 t1)].
      destruct (log_env "Created directory" (P ++ [x]) t2 s2)
        as [[] s3 t3|e3 s3] eqn:Hg;
        [|inversion Hx; subst;
          now apply (p1_log_dir pre x sub post P t s l s0 t0 s1 t1 s2 t2)].
      apply (p1_below_new pre x sub post P t s l s0 t0 s1 t1 s2 t2 s3 t3);
        auto.
Qed.

Lemma rep_to_src_raised src P t s e s' :
  rep_to_src_env src P t s = Raised e s' -> pass2_raises src P t s e s'.
Proof.
  unfold rep_to_src_env, sys_bind. intros H.
  destruct (get_dir_content_env (InReplica P) t s) as [l s0 t0|e0 s0] eqn:Hl;
    [|inversion H; subst; now apply p2_listing].
  destruct (sys_for_each_raised _ _ _ _ _ _ H)
    as (pre & y & post & s1 & t1 & -> & Hpre & Hy).
  unfold prune_item_env, sys_bind in Hy.
  pose proof (test_path_exists (join (InSource (Some src)) y) t1 s1) as Hp.
  pose proof (test_isfile (InReplica (P ++ [y])) t1 s1) as Hf.
  pose proof (test_isdir (InReplica (P ++ [y])) t1 s1) as Hd.
  rewrite Hp in Hy.
  destruct (is_some (os_stat (resolve (join (InSource (Some src)) y) s1)));
    cbn [negb] in Hy; [discriminate|].
  rewrite Hf in Hy.
  destruct (is_file (os_stat (resolve (InReplica (P ++ [y])) s1))).
  - destruct (os_remove_env (P ++ [y]) t1 s1) as [[] s2 t2|e2 s2] eqn:Hr;
      [|inversion Hy; subst;
        now apply (p2_remove _ _ _ _ _ _ pre y post s0 t0 s1 t1)].
    now apply (p2_log_removed _ _ _ _ _ _ pre y post s0 t0 s1 t1 s2 t2).
  - rewrite Hd in Hy.
    destruct (is_dir (os_stat (resolve (InReplica (P ++ [y])) s1)));
      [|discriminate].
    destruct (rmtree_env (P ++ [y]) t1 s1) as [[] s2 t2|e2 s2] eqn:Hr;
      [|inversion Hy; subst;
        now apply (p2_rmtree _ _ _ _ _ _ pre y post s0 t0 s1 t1)].
    now apply (p2_log_rmtree _ _ _ _ _ _ pre y post s0 t0 s1 t1 s2 t2).
Qed.

(** C8.  No exception is caught.  In an environment that can fail any
    call of a primitive at any time -- listing, [os.path.getsize],
    reading, [os.remove], [open], [shutil.copy2], [os.makedirs],
    [shutil.rmtree], writing the log line -- and whatever the reason
    (the shape of the trees, permission denied, a full disk, a path that
    disappeared): an exception raised by a call inside the change
    detector, inside [synchronize_file], while a directory is created,
    at any depth of Pass 1, or while Pass 2 lists and deletes, is the
    result of [synchronize]: the same exception, with the state that the
    failed call left; nothing of the pass runs after it, and the call is
    not made again.  Conversely, whenever [synchronize] raises, it
    raises what one of these calls raised, with the state that call
    left. *)
Theorem io_errors_propagate src P t s e s' :
  sync_raises src P t s e s' <-> synchronize_env src P t s = Raised e s'.
Proof.
  split.
  - intros [H | s1 t1 H1 H2]; unfold synchronize_env, sys_bind.
    + now rewrite (src_to_rep_propagates _ _ _ _ _ _ H).
    + rewrite H1. now apply rep_to_src_propagates.
  - unfold synchronize_env, sys_bind. intros H.
    destruct (src_to_rep_env src P t s) as [[] s1 t1|e1 s1] eqn:H1.
    + apply (in_pass2 _ _ _ _ _ _ s1 t1); auto.
      now apply rep_to_src_raised.
    + inversion H. subst. apply in_pass1. now apply src_to_rep_raised.
Qed.

(** * Further properties of the program *)

(** ** Relations that every step keeps *)

Lemma steps_ret R {A} (a : A) :
  (forall s, R s s) -> steps R (ret a).
Proof. intros Hr s. apply Hr. Qed.

Lemma steps_bind R {A B} (m : io A) (k : A -> io B) :
  (forall s1 s2 s3, R s1 s2 -> R s2 s3 -> R s1 s3) ->
  steps R m -> (forall a, steps R (k a)) -> steps R (bind m k).
Proof.
  intros Ht Hm Hk s. unfold bind. specialize (Hm s).
  destruct (m s) as [a s1|e s1]; simpl in *; auto.
  eapply Ht; [exact Hm | apply Hk].
Qed.

Lemma steps_for_each R {A} (f : A -> io unit) l :
  (forall s, R s s) ->
  (forall s1 s2 s3, R s1 s2 -> R s2 s3 -> R s1 s3) ->
  (forall x, In x l -> steps R (f x)) -> steps R (for_each f l).
Proof.
  intros Hr Ht. induction l as [|x l IH]; intros Hf.
  - now apply steps_ret.
  - simpl. apply steps_bind; auto.
    + apply Hf. now left.
    + intros _. apply IH. intros y Hy. apply Hf. now right.
Qed.

Lemma steps_if R {A} (b : bool) (m1 m2 : io A) :
  steps R m1 -> steps R m2 -> steps R (if b then m1 else m2).
Proof. now destruct b. Qed.

Lemma appended_refl Q s : appended Q s s.
Proof. exists []. now rewrite app_nil_r. Qed.

Lemma appended_trans Q s1 s2 s3 :
  appended Q s1 s2 -> appended Q s2 s3 -> appended Q s1 s3.
Proof.
  intros (e1 & H1 & Q1) (e2 & H2 & Q2). exists (e1 ++ e2).
  rewrite H2, H1, app_assoc. split; auto.
  rewrite forallb_app. now rewrite Q1, Q2.
Qed.

Lemma appended_weaken (Q Q' : string * path -> bool) s s' :
  (forall ev, Q ev = true -> Q' ev = true) ->
  appended Q s s' -> appended Q' s s'.
Proof.
  intros H (evs & E & Hq). exists evs. split; auto.
  rewrite forallb_forall in *. auto.
Qed.

Lemma appended_silent Q s s' : logged s' = logged s -> appended Q s s'.
Proof. intros H. exists []. now rewrite app_nil_r. Qed.

Lemma lift_logged o s : logged (final (lift o s)) = logged s.
Proof. now destruct o. Qed.

Lemma lift_reads o s : reads (final (lift o s)) = reads s.
Proof. now destruct o. Qed.

(** ** The primitives and the log *)

Ltac prim_cases :=
  repeat match goal with
         | |- context [match ?e with _ => _ end] => destruct e
         | |- context [if ?e then _ else _] => destruct e
         end;
  simpl; auto using lift_logged, lift_reads.

Lemma path_exists_state l s : final (path_exists l s) = s.
Proof. reflexivity. Qed.

Lemma isfile_state l s : final (isfile l s) = s.
Proof. reflexivity. Qed.

Lemma isdir_state l s : final (isdir l s) = s.
Proof. reflexivity. Qed.

Lemma getsize_state l s : final (getsize l s) = s.
Proof. unfold getsize. prim_cases. Qed.

Lemma get_dir_content_state l s : final (get_dir_content l s) = s.
Proof. unfold get_dir_content. prim_cases. Qed.

Lemma read_bytes_logged l s : logged (final (read_bytes l s)) = logged s.
Proof. unfold read_bytes. prim_cases. Qed.

Lemma read_bytes_replica l s : replica (final (read_bytes l s)) = replica s.
Proof. unfold read_bytes. prim_cases. Qed.

Lemma os_remove_logged p s : logged (final (os_remove p s)) = logged s.
Proof. unfold os_remove. prim_cases. Qed.

Lemma open_w_logged p s : logged (final (open_w p s)) = logged s.
Proof. unfold open_w. prim_cases. Qed.

Lemma copy2_logged src b p s : logged (final (copy2 src b p s)) = logged s.
Proof. unfold copy2. prim_cases. Qed.

Lemma makedirs_logged p s : logged (final (makedirs p s)) = logged s.
Proof. unfold makedirs. prim_cases. Qed.

Lemma rmtree_logged p s : logged (final (rmtree p s)) = logged s.
Proof. unfold rmtree. prim_cases. Qed.

Lemma os_remove_reads p s : reads (final (os_remove p s)) = reads s.
Proof. unfold os_remove. prim_cases. Qed.

Lemma rmtree_reads p s : reads (final (rmtree p s)) = reads s.
Proof. unfold rmtree. prim_cases. Qed.

Lemma log_appended (Q : string * path -> bool) a p :
  Q (a, p) = true -> steps (appended Q) (log a p).
Proof.
  intros H s. exists [(a, p)]. simpl. now rewrite H.
Qed.

Lemma silent_appended Q {A} (m : io A) :
  (forall s, logged (final (m s)) = logged s) -> steps (appended Q) m.
Proof. intros H s. apply appended_silent, H. Qed.

Lemma same_state_appended Q {A} (m : io A) :
  (forall s, final (m s) = s) -> steps (appended Q) m.
Proof. intros H s. rewrite H. apply appended_refl. Qed.

Lemma calculate_hash_appended Q l : steps (appended Q) (calculate_hash l).
Proof.
  unfold calculate_hash. apply steps_bind.
  - apply appended_trans.
  - apply silent_appended, read_bytes_logged.
  - intros c. apply steps_ret, appended_refl.
Qed.

Lemma same_files_appended Q a b : steps (appended Q) (same_files a b).
Proof.
  unfold same_files.
  apply steps_bind; [apply appended_trans
                    | apply same_state_appended, getsize_state |].
  intros n. apply steps_bind; [apply appended_trans
                    | apply same_state_appended, getsize_state |].
  intros n'. apply steps_if.
  - apply steps_ret, appended_refl.
  - apply steps_bind; [apply appended_trans
                      | apply calculate_hash_appended |].
    intros h. apply steps_bind; [apply appended_trans
                      | apply calculate_hash_appended |].
    intros h'. apply steps_ret, appended_refl.
Qed.

(** ** Prefixes *)

Lemma is_prefix_app P q : is_prefix P (P ++ q) = true.
Proof. induction P; simpl; auto. now rewrite String.eqb_refl. Qed.

Lemma is_prefix_app_l P x q :
  is_prefix (P ++ [x]) q = true -> is_prefix P q = true.
Proof.
  revert q. induction P as [|a P IH]; intros q; simpl; auto.
  destruct q as [|b q]; auto. intros H. apply andb_prop in H.
  destruct H as [H1 H2]. rewrite H1. simpl. auto.
Qed.

Lemma is_prefix_length P q :
  is_prefix P q = true -> List.length P <= List.length q.
Proof.
  revert q. induction P as [|a P IH]; intros q; simpl; [lia|].
  destruct q as [|b q]; [discriminate|]. intros H.
  apply andb_prop in H. destruct H as [_ H]. apply IH in H. simpl. lia.
Qed.

Lemma strictly_below_snoc P x : strictly_below P (P ++ [x]) = true.
Proof.
  unfold strictly_below. rewrite is_prefix_app. simpl.
  apply Nat.ltb_lt. rewrite length_app. simpl. lia.
Qed.

Lemma strictly_below_deeper P x q :
  strictly_below (P ++ [x]) q = true -> strictly_below P q = true.
Proof.
  unfold strictly_below. intros H. apply andb_prop in H.
  destruct H as [H1 H2]. rewrite (is_prefix_app_l _ _ _ H1). simpl.
  apply Nat.ltb_lt in H2. apply Nat.ltb_lt.
  rewrite length_app in H2. simpl in H2. lia.
Qed.

Lemma pass1_line_snoc P x a :
  creation_label a = true -> pass1_line P (a, P ++ [x]) = true.
Proof.
  intros H. unfold pass1_line. simpl. now rewrite H, strictly_below_snoc.
Qed.

Lemma pass1_line_deeper P x ev :
  pass1_line (P ++ [x]) ev = true -> pass1_line P ev = true.
Proof.
  unfold pass1_line. intros H. apply andb_prop in H. destruct H as [H1 H2].
  now rewrite H1, (strictly_below_deeper _ _ _ H2).
Qed.

Lemma pass2_line_snoc P y : pass2_line P ("Deleted", P ++ [y]) = true.
Proof.
  unfold pass2_line. simpl. rewrite is_prefix_app, length_app. simpl.
  rewrite Nat.add_1_r. now rewrite Nat.eqb_refl.
Qed.

(** ** The log of each function *)

Lemma synchronize_file_appended src_file P x :
  steps (appended (pass1_line P)) (synchronize_file src_file P x).
Proof.
  unfold synchronize_file.
  apply steps_bind; [apply appended_trans
                    | apply same_state_appended, getsize_state |].
  intros n. apply steps_if.
  - apply steps_bind; [apply appended_trans
                      | apply same_state_appended, path_exists_state |].
    intros b. apply steps_bind; [apply appended_trans | |].
    { apply steps_if.
      - apply silent_appended, os_remove_logged.
      - apply steps_ret, appended_refl. }
    intros _. apply steps_bind; [apply appended_trans
                      | apply silent_appended, open_w_logged |].
    intros _. now apply log_appended, pass1_line_snoc.
  - apply steps_bind; [apply appended_trans
                      | apply same_state_appended, path_exists_state |].
    intros b. apply steps_if.
    + apply steps_bind; [apply appended_trans
                        | apply silent_appended, copy2_logged |].
      intros _. now apply log_appended, pass1_line_snoc.
    + apply steps_bind; [apply appended_trans
                        | apply same_files_appended |].
      intros same. apply steps_if.
      * apply steps_bind; [apply appended_trans
                          | apply silent_appended, copy2_logged |].
        intros _. now apply log_appended, pass1_line_snoc.
      * apply steps_ret, appended_refl.
Qed.

Lemma synchronize_dir_with_appended rec src_dir P x :
  steps (appended (pass1_line (P ++ [x]))) (rec src_dir (P ++ [x])) ->
  steps (appended (pass1_line P)) (synchronize_dir_with rec src_dir P x).
Proof.
  intros Hrec. unfold synchronize_dir_with.
  apply steps_bind; [apply appended_trans
                    | apply same_state_appended, path_exists_state |].
  intros b. apply steps_bind; [apply appended_trans | |].
  - apply steps_if.
    + apply steps_bind; [apply appended_trans
                        | apply silent_appended, makedirs_logged |].
      intros _. now apply log_appended, pass1_line_snoc.
    + apply steps_ret, appended_refl.
  - intros _ s. eapply appended_weaken; [|apply Hrec].
    apply pass1_line_deeper.
Qed.

Lemma src_to_rep_appended src :
  forall P, steps (appended (pass1_line P)) (src_to_rep src P).
Proof.
  induction src as [c| | |ses IH] using node_tree_ind; intros P;
    try (simpl; apply steps_bind;
         [apply appended_trans
         | apply same_state_appended, get_dir_content_state
         | intros _; apply steps_ret, appended_refl]).
  rewrite src_to_rep_dir.
  apply steps_for_each; [apply appended_refl | apply appended_trans |].
  intros [x t] Hin. rewrite Forall_forall in IH. specialize (IH _ Hin).
  unfold sync_item, sync_item_with.
  apply steps_bind; [apply appended_trans
                    | apply same_state_appended, isfile_state |].
  intros f. apply steps_if; [apply synchronize_file_appended|].
  apply steps_bind; [apply appended_trans
                    | apply same_state_appended, isdir_state |].
  intros d. apply steps_if; [|apply steps_ret, appended_refl].
  apply synchronize_dir_with_appended, IH.
Qed.

Lemma prune_item_appended src P y :
  steps (appended (pass2_line P)) (prune_item src P y).
Proof.
  unfold prune_item.
  apply steps_bind; [apply appended_trans
                    | apply same_state_appended, path_exists_state |].
  intros b. apply steps_if; [|apply steps_ret, appended_refl].
  apply steps_bind; [apply appended_trans
                    | apply same_state_appended, isfile_state |].
  intros f. apply steps_if.
  - apply steps_bind; [apply appended_trans
                      | apply silent_appended, os_remove_logged |].
    intros _. apply log_appended, pass2_line_snoc.
  - apply steps_bind; [apply appended_trans
                      | apply same_state_appended, isdir_state |].
    intros d. apply steps_if; [|apply steps_ret, appended_refl].
    apply steps_bind; [apply appended_trans
                      | apply silent_appended, rmtree_logged |].
    intros _. apply log_appended, pass2_line_snoc.
Qed.

Lemma rep_to_src_appended src P :
  steps (appended (pass2_line P)) (rep_to_src src P).
Proof.
  unfold rep_to_src.
  apply steps_bind; [apply appended_trans
                    | apply same_state_appended, get_dir_content_state |].
  intros l. apply steps_for_each;
    [apply appended_refl | apply appended_trans |].
  intros y _. apply prune_item_appended.
Qed.

(** X1.  The log is only appended to, and in order: whatever the two
    trees are and whether the run returns or raises, the log after
    [synchronize] is the log before it followed by the lines of Pass 1,
    each a creation or an update of a path strictly below the replica
    path, followed by the lines of Pass 2, each "Deleted" for an entry
    of the replica path itself. *)
Theorem log_appended_in_pass_order src P s :
  exists evs1 evs2,
    logged (final (synchronize src P s)) = logged s ++ evs1 ++ evs2
    /\ forallb (pass1_line P) evs1 = true
    /\ forallb (pass2_line P) evs2 = true.
Proof.
  unfold synchronize, bind.
  destruct (src_to_rep_appended src P s) as (evs1 & E1 & Q1).
  destruct (src_to_rep src P s) as [[] s1|e s1]; simpl in E1.
  - destruct (rep_to_src_appended src P s1) as (evs2 & E2 & Q2).
    exists evs1, evs2. rewrite E2, E1, app_assoc. auto.
  - exists evs1, []. simpl. rewrite app_nil_r. auto.
Qed.

(** ** What lies outside the replica path *)

Lemma outside_kept_refl P s : outside_kept P s s.
Proof. intros q _ _. reflexivity. Qed.

Lemma outside_kept_trans P s1 s2 s3 :
  outside_kept P s1 s2 -> outside_kept P s2 s3 -> outside_kept P s1 s3.
Proof. intros H1 H2 q Ha Hb. now rewrite H2, H1. Qed.

Lemma is_prefix_nil_r q : is_prefix q [] = true -> q = [].
Proof. now destruct q. Qed.

Lemma apart_extend P p q :
  is_prefix P p = true ->
  is_prefix P q = false -> is_prefix q P = false ->
  is_prefix p q = false /\ is_prefix q p = false.
Proof.
  revert p q. induction P as [|a P IH]; intros p q Hp Hq Hq'.
  - discriminate.
  - destruct p as [|a' p]; [discriminate|]. simpl in Hp.
    apply andb_prop in Hp. destruct Hp as [Ha Hp].
    apply String.eqb_eq in Ha. subst a'.
    destruct q as [|b q]; [discriminate|]. simpl in *.
    destruct (String.eqb a b) eqn:E; simpl in *.
    + rewrite String.eqb_sym, E in Hq'. rewrite String.eqb_sym, E.
      simpl in *. now apply IH.
    + rewrite String.eqb_sym, E. auto.
Qed.

Lemma outside_kept_deeper P x s s' :
  outside_kept (P ++ [x]) s s' -> outside_kept P s s'.
Proof.
  intros H q Ha Hb. apply H;
    now apply (apart_extend P (P ++ [x]) q (is_prefix_app P [x])).
Qed.

Lemma child_bound_other x y v es :
  x <> y -> child (bound x v es) y = child es y.
Proof.
  intros H. destruct v; simpl; auto using child_put_other, child_unlink_other.
Qed.

Lemma write_frame p :
  forall n n' v q,
    write n p v = Done n' ->
    is_prefix p q = false -> is_prefix q p = false ->
    lookup n' q = lookup n q.
Proof.
  induction p as [|x p IH]; intros n n' v q Hw Ha Hb; [discriminate|].
  destruct n as [|es| |]; try discriminate.
  destruct q as [|y q]; [discriminate|].
  destruct p as [|x' p].
  - simpl in Hw. inversion Hw. subst n'. simpl in Ha.
    rewrite andb_true_r in Ha. apply String.eqb_neq in Ha.
    simpl. now rewrite child_bound_other.
  - rewrite write_cons in Hw by discriminate.
    destruct (child es x) as [c|] eqn:E; [|discriminate].
    destruct (write c (x' :: p) v) as [c'|] eqn:Ew; [|discriminate].
    inversion Hw. subst n'. simpl lookup.
    destruct (String.eqb x y) eqn:Exy.
    + apply String.eqb_eq in Exy. subst y.
      rewrite child_put_same, E. apply (IH c c' v q Ew).
      * simpl in Ha. now rewrite String.eqb_refl in Ha.
      * simpl in Hb. now rewrite String.eqb_refl in Hb.
    + apply String.eqb_neq in Exy. now rewrite child_put_other.
Qed.

Lemma lookup_fresh p :
  forall q, is_prefix q p = false -> lookup (fresh_dirs p) q = None.
Proof.
  induction p as [|x p IH]; intros q H.
  - destruct q; [discriminate | reflexivity].
  - destruct q as [|y q]; [discriminate|]. simpl in *.
    destruct (String.eqb y x) eqn:E; simpl in H.
    + apply String.eqb_eq in E. subst y. rewrite String.eqb_refl. auto.
    + rewrite String.eqb_sym, E. reflexivity.
Qed.

Lemma mkdirs_frame p :
  forall n n' q,
    mkdirs n p = Done n' ->
    is_prefix p q = false -> is_prefix q p = false ->
    lookup n' q = lookup n q.
Proof.
  induction p as [|x p IH]; intros n n' q Hw Ha Hb; [discriminate|].
  destruct n as [|es| |]; try discriminate.
  destruct q as [|y q]; [discriminate|].
  simpl in Hw. simpl lookup.
  destruct (String.eqb x y) eqn:Exy.
  - apply String.eqb_eq in Exy. subst y. simpl in Ha, Hb.
    rewrite String.eqb_refl in Ha, Hb. simpl in Ha, Hb.
    destruct (child es x) as [c|] eqn:E.
    + destruct (mkdirs c p) as [c'|] eqn:Ew; [|discriminate].
      inversion Hw. subst n'. simpl. rewrite child_put_same.
      now apply (IH c c' q Ew).
    + inversion Hw. subst n'. simpl. rewrite child_put_same.
      now apply lookup_fresh.
  - apply String.eqb_neq in Exy.
    destruct (child es x) as [c|] eqn:E.
    + destruct (mkdirs c p) as [c'|] eqn:Ew; [|discriminate].
      inversion Hw. subst n'. simpl. now rewrite child_put_other.
    + inversion Hw. subst n'. simpl. now rewrite child_put_other.
Qed.

Lemma lift_write_outside P p v s :
  is_prefix P p = true ->
  outside_kept P s (final (lift (write (replica s) p v) s)).
Proof.
  intros Hp q Ha Hb. destruct (write (replica s) p v) eqn:E; simpl; auto.
  destruct (apart_extend P p q Hp Ha Hb). eapply write_frame; eauto.
Qed.

Lemma os_remove_outside P p :
  is_prefix P p = true -> steps (outside_kept P) (os_remove p).
Proof.
  intros Hp s. unfold os_remove.
  destruct (lookup (replica s) p) as [[| | |]|];
    try apply outside_kept_refl; now apply lift_write_outside.
Qed.


Lemma open_w_outside P p :
  is_prefix P p = true -> steps (outside_kept P) (open_w p).
Proof.
  intros Hp s. unfold open_w.
  destruct (lookup (replica s) p) as [[| | |]|];
    try apply outside_kept_refl; now apply lift_write_outside.
Qed.

Lemma is_prefix_app_r P p q :
  is_prefix P p = true -> is_prefix P (p ++ q) = true.
Proof.
  revert p. induction P as [|a P IH]; intros p H; auto.
  destruct p as [|b p]; [discriminate|]. simpl in *.
  apply andb_prop in H. destruct H as [H1 H2]. rewrite H1. simpl. auto.
Qed.

Lemma copy2_outside P src b p :
  is_prefix P p = true -> steps (outside_kept P) (copy2 src b p).
Proof.
  intros Hp s. unfold copy2.
  set (dst := if is_dir (lookup (replica s) p) then p ++ [b] else p).
  assert (Hd : is_prefix P dst = true).
  { unfold dst. destruct (is_dir _); auto using is_prefix_app_r. }
  destruct (is_special (resolve src s) || is_special (lookup (replica s) dst));
    [apply outside_kept_refl|].
  destruct (os_stat (resolve src s)) as [[| | |]|];
    try apply outside_kept_refl.
  destruct (lookup (replica s) dst) as [[| | |]|];
    try apply outside_kept_refl; now apply lift_write_outside.
Qed.

Lemma makedirs_outside P p :
  is_prefix P p = true -> steps (outside_kept P) (makedirs p).
Proof.
  intros Hp s q Ha Hb. unfold makedirs.
  destruct (mkdirs (replica s) p) eqn:E; simpl; auto.
  destruct (apart_extend P p q Hp Ha Hb). eapply mkdirs_frame; eauto.
Qed.

Lemma same_replica_outside P {A} (m : io A) :
  (forall s, replica (final (m s)) = replica s) -> steps (outside_kept P) m.
Proof. intros H s q _ _. now rewrite H. Qed.

Lemma same_state_outside P {A} (m : io A) :
  (forall s, final (m s) = s) -> steps (outside_kept P) m.
Proof. intros H s. rewrite H. apply outside_kept_refl. Qed.

Lemma log_outside P a p : steps (outside_kept P) (log a p).
Proof. now apply same_replica_outside. Qed.

Lemma same_files_outside P a b : steps (outside_kept P) (same_files a b).
Proof.
  assert (Hh : forall l, steps (outside_kept P) (calculate_hash l)).
  { intros l. unfold calculate_hash. apply steps_bind.
    - apply outside_kept_trans.
    - apply same_replica_outside, read_bytes_replica.
    - intros c. apply steps_ret, outside_kept_refl. }
  unfold same_files.
  apply steps_bind; [apply outside_kept_trans
                    | apply same_state_outside, getsize_state |].
  intros n. apply steps_bind; [apply outside_kept_trans
                    | apply same_state_outside, getsize_state |].
  intros n'. apply steps_if; [apply steps_ret, outside_kept_refl|].
  apply steps_bind; [apply outside_kept_trans | apply Hh |].
  intros h. apply steps_bind; [apply outside_kept_trans | apply Hh |].
  intros h'. apply steps_ret, outside_kept_refl.
Qed.

Lemma synchronize_file_outside src_file P x :
  steps (outside_kept P) (synchronize_file src_file P x).
Proof.
  pose proof (is_prefix_app P [x]) as Hx.
  unfold synchronize_file.
  apply steps_bind; [apply outside_kept_trans
                    | apply same_state_outside, getsize_state |].
  intros n. apply steps_if.
  - apply steps_bind; [apply outside_kept_trans
                      | apply same_state_outside, path_exists_state |].
    intros b. apply steps_bind; [apply outside_kept_trans | |].
    { apply steps_if.
      - now apply os_remove_outside.
      - apply steps_ret, outside_kept_refl. }
    intros _. apply steps_bind; [apply outside_kept_trans
                      | now apply open_w_outside |].
    intros _. apply log_outside.
  - apply steps_bind; [apply outside_kept_trans
                      | apply same_state_outside, path_exists_state |].
    intros b. apply steps_if.
    + apply steps_bind; [apply outside_kept_trans
                        | now apply copy2_outside |].
      intros _. apply log_outside.
    + apply steps_bind; [apply outside_kept_trans
                        | apply same_files_outside |].
      intros same. apply steps_if.
      * apply steps_bind; [apply outside_kept_trans
                          | now apply copy2_outside |].
        intros _. apply log_outside.
      * apply steps_ret, outside_kept_refl.
Qed.

Lemma src_to_rep_outside src :
  forall P, steps (outside_kept P) (src_to_rep src P).
Proof.
  induction src as [c| | |ses IH] using node_tree_ind; intros P;
    try (simpl; apply steps_bind;
         [apply outside_kept_trans
         | apply same_state_outside, get_dir_content_state
         | intros _; apply steps_ret, outside_kept_refl]).
  rewrite src_to_rep_dir.
  apply steps_for_each; [apply outside_kept_refl | apply outside_kept_trans |].
  intros [x t] Hin. rewrite Forall_forall in IH. specialize (IH _ Hin).
  unfold sync_item, sync_item_with.
  apply steps_bind; [apply outside_kept_trans
                    | apply same_state_outside, isfile_state |].
  intros f. apply steps_if; [apply synchronize_file_outside|].
  apply steps_bind; [apply outside_kept_trans
                    | apply same_state_outside, isdir_state |].
  intros d. apply steps_if; [|apply steps_ret, outside_kept_refl].
  unfold synchronize_dir_with.
  apply steps_bind; [apply outside_kept_trans
                    | apply same_state_outside, path_exists_state |].
  intros b. apply steps_bind; [apply outside_kept_trans | |].
  - apply steps_if.
    + apply steps_bind; [apply outside_kept_trans
                        | apply makedirs_outside, is_prefix_app |].
      intros _. apply log_outside.
    + apply steps_ret, outside_kept_refl.
  - intros _ s. eapply outside_kept_deeper, IH.
Qed.



(** ** Pass 2 *)

Lemma reads_kept_trans s1 s2 s3 :
  reads_kept s1 s2 -> reads_kept s2 s3 -> reads_kept s1 s3.
Proof. unfold reads_kept. congruence. Qed.

Lemma same_state_reads {A} (m : io A) :
  (forall s, final (m s) = s) -> steps reads_kept m.
Proof. intros H s. now rewrite H. Qed.

Lemma rep_to_src_reads src P : steps reads_kept (rep_to_src src P).
Proof.
  assert (Hlog : forall a p, steps reads_kept (log a p)) by (intros a p s; reflexivity).
  unfold rep_to_src.
  apply steps_bind; [apply reads_kept_trans
                    | apply same_state_reads, get_dir_content_state |].
  intros l. apply steps_for_each;
    [reflexivity | apply reads_kept_trans |].
  intros y _. unfold prune_item.
  apply steps_bind; [apply reads_kept_trans
                    | apply same_state_reads, path_exists_state |].
  intros b. apply steps_if; [|apply steps_ret; reflexivity].
  apply steps_bind; [apply reads_kept_trans
                    | apply same_state_reads, isfile_state |].
  intros f. apply steps_if.
  - apply steps_bind; [apply reads_kept_trans
                      | intros s; apply os_remove_reads | auto].
  - apply steps_bind; [apply reads_kept_trans
                      | apply same_state_reads, isdir_state |].
    intros d. apply steps_if; [|apply steps_ret; reflexivity].
    apply steps_bind; [apply reads_kept_trans
                      | intros s; apply rmtree_reads | auto].
Qed.

(** X3.  Pass 2 only deletes.  On a replica path that is a directory,
    [rep_to_src] always returns normally and reads no file content;
    every path strictly below the replica path either denotes what it
    denoted before or denotes nothing; and for every name the lines it
    logs for that entry or for a path below it are exactly one
    "Deleted" line when the entry existed before and is gone, and none
    otherwise. *)
Theorem pass2_only_deletes src P s res :
  lookup (replica s) P = Some (Dir res) ->
  exists s' evs,
    rep_to_src src P s = Ok tt s'
    /\ reads s' = reads s
    /\ logged s' = logged s ++ evs
    /\ (forall y q,
          lookup (replica s') (P ++ y :: q) = None
          \/ lookup (replica s') (P ++ y :: q)
             = lookup (replica s) (P ++ y :: q))
    /\ (forall y,
          events_under (P ++ [y]) evs
          = if is_some (lookup (replica s) (P ++ [y]))
               && negb (is_some (lookup (replica s') (P ++ [y])))
            then [("Deleted", P ++ [y])] else []).
Proof.
  intros H.
  destruct (rep_to_src_entry src P s res H) as (s' & E & Hr & Hl).
  assert (H' : lookup (replica s') P
               = Some (Dir (pruned src (map fst res) res)))
    by (rewrite Hr; eapply lookup_subst; eauto).
  exists s', (prune_events src P (map fst res) res).
  split; auto. split.
  { pose proof (rep_to_src_reads src P s) as Hk. now rewrite E in Hk. }
  split; auto. split.
  - intros y q. rewrite !lookup_app, H, H'. simpl.
    rewrite child_pruned_listing.
    destruct (deletable src (child res y) y); auto.
  - intros y. rewrite (lookup_snoc _ _ _ _ H), (lookup_snoc _ _ _ _ H').
    rewrite events_under_prune, child_pruned_listing.
    destruct (child res y) as [r|] eqn:Ey.
    + rewrite child_listed by congruence.
      destruct (deletable src (Some r) y); reflexivity.
    + now rewrite deletable_None, andb_false_r.
Qed.

(** X4.  An empty source directory empties the replica directory of
    its regular files and directories: [synchronize] returns normally,
    and afterwards a name of the replica directory denotes nothing if it
    named a regular file or a directory, and what it named otherwise. *)
Theorem empty_source_empties_replica P s res :
  lookup (replica s) P = Some (Dir res) ->
  exists s',
    synchronize (Dir []) P s = Ok tt s'
    /\ forall y,
        lookup (replica s') (P ++ [y])
        = if is_file (child res y) || is_dir (child res y)
          then None else child res y.
Proof.
  intros H.
  destruct (rep_to_src_entry (Dir []) P s res H) as (s' & E & Hr & _).
  exists s'. split; [exact E|].
  intros y. erewrite lookup_snoc by (rewrite Hr; eapply lookup_subst; eauto).
  now rewrite child_pruned_listing.
Qed.

(** ** A replica path that is not a directory *)

Lemma lookup_through n P r x q :
  lookup n P = Some r -> is_dir (Some r) = false ->
  lookup n (P ++ x :: q) = None.
Proof.
  intros H Hr. rewrite lookup_app, H. now destruct r.
Qed.

Lemma write_through n P r x v :
  lookup n P = Some r ->
  is_file (Some r) || is_special (Some r) = true ->
  write n (P ++ [x]) v = Fail NotADirectoryError.
Proof.
  revert n. induction P as [|y P IH]; intros n H Hr.
  - simpl in H. inversion H. subst n. now destruct r.
  - simpl in H. destruct n as [|es| |]; try discriminate.
    destruct (child es y) as [c|] eqn:E; try discriminate.
    change ((y :: P) ++ [x]) with (y :: (P ++ [x])).
    rewrite write_cons by (now destruct P).
    now rewrite E, (IH c H Hr).
Qed.

Lemma mkdirs_through n P r x :
  lookup n P = Some r ->
  is_file (Some r) || is_special (Some r) = true ->
  mkdirs n (P ++ [x]) = Fail NotADirectoryError.
Proof.
  revert n. induction P as [|y P IH]; intros n H Hr.
  - simpl in H. inversion H. subst n. now destruct r.
  - simpl in H. destruct n as [|es| |]; try discriminate.
    destruct (child es y) as [c|] eqn:E; try discriminate.
    simpl. now rewrite E, (IH c H Hr).
Qed.

Lemma sync_item_into_non_directory P s r x t :
  lookup (replica s) P = Some r ->
  is_file (Some r) || is_special (Some r) = true ->
  sync_item P (x, t) s = Ok tt s
  \/ sync_item P (x, t) s = Raise NotADirectoryError s.
Proof.
  intros H Hr.
  assert (Hd : is_dir (Some r) = false) by (now destruct r).
  pose proof (lookup_through _ _ _ x [] H Hd) as Hx.
  destruct t as [c|sub| |]; auto; right.
  - rewrite sync_item_file. unfold synchronize_file, bind.
    rewrite getsize_source_file.
    destruct (Nat.eqb (List.length c) 0).
    + unfold path_exists, open_w. simpl. repeat (rewrite Hx; simpl).
      now rewrite (write_through _ _ _ _ _ H Hr).
    + unfold path_exists, copy2. simpl. repeat (rewrite Hx; simpl).
      now rewrite (write_through _ _ _ _ _ H Hr).
  - rewrite sync_item_dir.
    unfold synchronize_dir, synchronize_dir_with, bind, path_exists, makedirs.
    simpl. repeat (rewrite Hx; simpl).
    now rewrite (mkdirs_through _ _ _ _ H Hr).
Qed.

(** X5.  A replica path that is a regular file or a special file:
    whatever the source directory holds, [synchronize] raises
    [NotADirectoryError] and leaves the replica tree, the log and the
    read count exactly as they were. *)
Theorem sync_into_non_directory_raises ses P s r :
  lookup (replica s) P = Some r ->
  is_file (Some r) || is_special (Some r) = true ->
  synchronize (Dir ses) P s = Raise NotADirectoryError s.
Proof.
  intros H Hr. unfold synchronize, bind. rewrite src_to_rep_dir.
  assert (Hloop : for_each (sync_item P) ses s = Ok tt s
                  \/ for_each (sync_item P) ses s
                     = Raise NotADirectoryError s).
  { induction ses as [|[x t] ses IH]; [now left|].
    rewrite for_each_cons.
    destruct (sync_item_into_non_directory P s r x t H Hr) as [E|E];
      rewrite E; auto. }
  destruct Hloop as [E|E]; rewrite E; auto.
  unfold rep_to_src, bind, get_dir_content. simpl. rewrite H.
  now destruct r.
Qed.

(** ** Copying into an empty directory *)

Lemma put_absent x n es : child es x = None -> put x n es = es ++ [(x, n)].
Proof.
  induction es as [|[k m] es IH]; simpl; auto.
  destruct (String.eqb k x); [discriminate|]. intros H. now rewrite IH.
Qed.

Lemma child_app a b y :
  child (a ++ b) y = match child a y with Some n => Some n | None => child b y end.
Proof.
  induction a as [|[k m] a IH]; simpl; auto.
  destruct (String.eqb k y); auto.
Qed.

Lemma regular_dir es : regular (Dir es) = Dir (regular_entries es).
Proof. reflexivity. Qed.

Lemma regular_entries_cons x t es :
  regular_entries ((x, t) :: es)
  = regular_entries [(x, t)] ++ regular_entries es.
Proof.
  unfold regular_entries. simpl. now rewrite app_nil_r.
Qed.

Lemma count_regular_cons x t es :
  count_regular (Dir ((x, t) :: es))
  = count_regular (Dir [(x, t)]) + count_regular (Dir es).
Proof.
  simpl. destruct t; simpl; lia.
Qed.

Lemma sync_item_fresh x t P s cur :
  fresh_spec t ->
  lookup (replica s) P = Some (Dir cur) ->
  well_formed t = true ->
  child cur x = None ->
  exists s1 evs,
    sync_item P (x, t) s = Ok tt s1
    /\ replica s1
       = subst (replica s) P (Dir (cur ++ regular_entries [(x, t)]))
    /\ logged s1 = logged s ++ evs
    /\ List.length evs = count_regular (Dir [(x, t)]).
Proof.
  intros IH H Hwf Hx. destruct t as [c|sub| |].
  - destruct (synchronize_file_entry c P x s cur H (or_introl Hx))
      as (s1 & E & Hr & Hl).
    exists s1, (file_events c P x cur). rewrite sync_item_file.
    split; auto. split; [|split; auto].
    + rewrite Hr. f_equal. f_equal. unfold file_synced. rewrite Hx.
      rewrite (unlink_absent _ _ Hx), !(put_absent _ _ _ Hx).
      destruct (Nat.eqb (List.length c) 0) eqn:El; auto.
      apply Nat.eqb_eq in El. now destruct c.
    + unfold file_events. rewrite Hx.
      now destruct (Nat.eqb (List.length c) 0).
  - rewrite sync_item_dir, (synchronize_dir_absent _ _ _ _ _ H Hx).
    set (s0 := mkState _ _ _).
    assert (H0 : lookup (replica s0) P = Some (Dir (put x (Dir []) cur)))
      by (simpl; eapply lookup_subst; eauto).
    destruct (IH (P ++ [x]) s0) as (s1 & evs & E & Hr & Hl & Hn); auto.
    { rewrite (lookup_snoc _ _ _ _ H0). apply child_put_same. }
    exists s1, (("Created directory", P ++ [x]) :: evs).
    split; auto. split; [|split].
    + rewrite Hr.
      rewrite (subst_snoc _ _ _ _ _ _ H0 (child_put_same _ _ _)).
      simpl replica. rewrite (subst_subst _ _ _ _ _ H).
      now rewrite put_put, (put_absent _ _ _ Hx).
    + rewrite Hl. simpl. now rewrite <- app_assoc.
    + simpl. rewrite Hn. simpl. now rewrite Nat.add_0_r.
  - exists s, []. rewrite sync_item_special. simpl.
    rewrite !app_nil_r. repeat split; auto.
    symmetry. now apply subst_id.
  - exists s, []. rewrite sync_item_dangling. simpl.
    rewrite !app_nil_r. repeat split; auto.
    symmetry. now apply subst_id.
Qed.

Lemma child_regular_single x t y :
  x <> y -> child (regular_entries [(x, t)]) y = None.
Proof.
  intros Hxy. apply String.eqb_neq in Hxy.
  destruct t; unfold regular_entries; simpl; auto; now rewrite Hxy.
Qed.

Lemma for_each_fresh ses :
  Forall (fun e => fresh_spec (snd e)) ses ->
  forall P s cur,
    lookup (replica s) P = Some (Dir cur) ->
    well_formed (Dir ses) = true ->
    (forall y, In y (map fst ses) -> child cur y = None) ->
    exists s' evs,
      for_each (sync_item P) ses s = Ok tt s'
      /\ replica s' = subst (replica s) P (Dir (cur ++ regular_entries ses))
      /\ logged s' = logged s ++ evs
      /\ List.length evs = count_regular (Dir ses).
Proof.
  induction 1 as [|[x t] ses Ht Hses IH]; intros P s cur H Hwf Hcur.
  - exists s, []. simpl. rewrite !app_nil_r. repeat split; auto.
    symmetry. now apply subst_id.
  - apply well_formed_cons in Hwf. destruct Hwf as (Hx & Hwt & Hws).
    destruct (sync_item_fresh x t P s cur Ht H Hwt)
      as (s1 & e1 & E1 & Hr1 & Hl1 & Hn1).
    { apply Hcur. now left. }
    assert (H1 : lookup (replica s1) P
                 = Some (Dir (cur ++ regular_entries [(x, t)])))
      by (rewrite Hr1; eapply lookup_subst; eauto).
    destruct (IH P s1 _ H1 Hws) as (s' & e2 & E2 & Hr2 & Hl2 & Hn2).
    { intros y Hy. rewrite child_app, Hcur by (now right).
      apply child_regular_single. intros ->. contradiction. }
    exists s', (e1 ++ e2). rewrite for_each_cons, E1.
    split; auto. split; [|split].
    + rewrite Hr2, Hr1, (subst_subst _ _ _ _ _ H).
      now rewrite <- app_assoc, <- regular_entries_cons.
    + now rewrite Hl2, Hl1, app_assoc.
    + rewrite length_app, Hn1, Hn2. symmetry. apply count_regular_cons.
Qed.

Lemma src_to_rep_fresh src : fresh_spec src.
Proof.
  induction src as [c| | |ses IH] using node_tree_ind; try exact I.
  unfold fresh_spec. intros P s H Hwf. rewrite src_to_rep_dir, regular_dir.
  destruct (for_each_fresh ses IH P s [] H Hwf) as (s' & evs & E); auto.
  exists s', evs. exact E.
Qed.

Lemma child_regular ses y r :
  child (regular_entries ses) y = Some r ->
  exists t, In (y, t) ses /\ is_file (Some t) || is_dir (Some t) = true.
Proof.
  induction ses as [|[x t] ses IH]; [discriminate|].
  rewrite regular_entries_cons, child_app.
  destruct (child (regular_entries [(x, t)]) y) as [n|] eqn:E.
  - intros _. exists t.
    destruct (String.eqb x y) eqn:Exy.
    + apply String.eqb_eq in Exy. subst y. split; [now left|].
      destruct t; auto; discriminate.
    + apply String.eqb_neq in Exy.
      rewrite (child_regular_single _ _ _ Exy) in E. discriminate.
  - intros H. destruct (IH H) as (t' & Hin & Ht). exists t'.
    split; auto. now right.
Qed.

(** X6.  A source directory whose name the replica directory lacks is
    copied whole: [synchronize_dir] returns normally; the replica then
    has under that name exactly the regular files and directories of the
    source directory, in listing order and with the same bytes; its
    other entries are as before; the first line logged is "Created
    directory" for the new directory, and the lines after it, one for
    each regular file and directory inside, all name paths below it. *)
Theorem missing_directory_copied_whole sub P x s es :
  lookup (replica s) P = Some (Dir es) ->
  child es x = None ->
  well_formed (Dir sub) = true ->
  exists s' evs,
    synchronize_dir (Dir sub) P x s = Ok tt s'
    /\ lookup (replica s') (P ++ [x]) = Some (regular (Dir sub))
    /\ (forall y, y <> x -> lookup (replica s') (P ++ [y]) = child es y)
    /\ logged s' = logged s ++ ("Created directory", P ++ [x]) :: evs
    /\ List.length evs = count_regular (Dir sub)
    /\ forallb (pass1_line (P ++ [x])) evs = true.
Proof.
  intros H Hx Hwf. rewrite (synchronize_dir_absent _ _ _ _ _ H Hx).
  set (s0 := mkState _ _ _).
  assert (H0 : lookup (replica s0) P = Some (Dir (put x (Dir []) es)))
    by (simpl; eapply lookup_subst; eauto).
  assert (Hx0 : lookup (replica s0) (P ++ [x]) = Some (Dir []))
    by (rewrite (lookup_snoc _ _ _ _ H0); apply child_put_same).
  destruct (src_to_rep_fresh (Dir sub) (P ++ [x]) s0 Hx0 Hwf)
    as (s' & evs & E & Hr & Hl & Hn).
  exists s', evs. split; auto.
  assert (Hr' : replica s'
                = subst (replica s) P (Dir (put x (regular (Dir sub)) es))).
  { rewrite Hr, (subst_snoc _ _ _ _ _ _ H0 (child_put_same _ _ _)).
    simpl replica. rewrite (subst_subst _ _ _ _ _ H). now rewrite put_put. }
  assert (H' : lookup (replica s') P
               = Some (Dir (put x (regular (Dir sub)) es)))
    by (rewrite Hr'; eapply lookup_subst; eauto).
  split; [|split; [|split; [|split]]]; auto.
  - rewrite (lookup_snoc _ _ _ _ H'). apply child_put_same.
  - intros y Hy. rewrite (lookup_snoc _ _ _ _ H').
    apply child_put_other. congruence.
  - rewrite Hl. simpl. now rewrite <- app_assoc.
  - pose proof (src_to_rep_appended (Dir sub) (P ++ [x]) s0) as Ha.
    rewrite E in Ha. destruct Ha as (evs' & Hl' & Hq). simpl in Hl'.
    rewrite Hl in Hl'. apply app_inv_head in Hl'. now subst evs'.
Qed.

(** X7.  Synchronizing into an empty replica directory makes an exact
    copy: [synchronize] of a well-formed source directory returns
    normally; the replica directory is then exactly the regular files
    and directories of the source, in listing order and with the same
    bytes; and the log grew by one creation line for each of them and
    by no "Deleted" line. *)
Theorem empty_replica_receives_exact_copy ses P s :
  lookup (replica s) P = Some (Dir []) ->
  well_formed (Dir ses) = true ->
  exists s' evs,
    synchronize (Dir ses) P s = Ok tt s'
    /\ lookup (replica s') P = Some (regular (Dir ses))
    /\ logged s' = logged s ++ evs
    /\ List.length evs = count_regular (Dir ses)
    /\ forallb (pass1_line P) evs = true.
Proof.
  intros H Hwf.
  destruct (src_to_rep_fresh (Dir ses) P s H Hwf)
    as (s1 & evs & E1 & Hr1 & Hl1 & Hn1).
  rewrite regular_dir in Hr1.
  assert (H1 : lookup (replica s1) P = Some (Dir (regular_entries ses)))
    by (rewrite Hr1; eapply lookup_subst; eauto).
  destruct (rep_to_src_entry (Dir ses) P s1 _ H1) as (s' & E2 & Hr2 & Hl2).
  assert (Hstable : forall y,
             deletable (Dir ses) (child (regular_entries ses) y) y = false).
  { intros y. destruct (child (regular_entries ses) y) as [r|] eqn:Ey.
    - destruct (child_regular _ _ _ Ey) as (t & Hin & Ht).
      now apply (deletable_listed ses (Some r) y t).
    - apply deletable_None. }
  destruct (pruned_stable (Dir ses) P (map fst (regular_entries ses)) _ Hstable)
    as [Hp He].
  exists s', evs. unfold synchronize, bind. rewrite E1.
  split; auto. split; [|split; [|split]]; auto.
  - rewrite Hr2, Hp. rewrite regular_dir. eapply lookup_subst; eauto.
  - now rewrite Hl2, He, app_nil_r.
  - pose proof (src_to_rep_appended (Dir ses) P s) as Ha.
    rewrite E1 in Ha. destruct Ha as (evs' & Hl' & Hq). simpl in Hl'.
    rewrite Hl1 in Hl'. apply app_inv_head in Hl'. now subst evs'.
Qed.

(** ** Names that the source does not list *)

Lemma siblings_apart P x y q :
  x <> y ->
  is_prefix (P ++ [x]) (P ++ y :: q) = false
  /\ is_prefix (P ++ y :: q) (P ++ [x]) = false.
Proof.
  intros Hxy. induction P as [|a P IH]; simpl.
  - apply String.eqb_neq in Hxy. rewrite Hxy.
    rewrite String.eqb_sym, Hxy. auto.
  - rewrite String.eqb_refl. exact IH.
Qed.

Lemma synchronize_file_within Q src_file P x :
  is_prefix Q (P ++ [x]) = true ->
  steps (outside_kept Q) (synchronize_file src_file P x).
Proof.
  intros Hx. unfold synchronize_file.
  apply steps_bind; [apply outside_kept_trans
                    | apply same_state_outside, getsize_state |].
  intros n. apply steps_if.
  - apply steps_bind; [apply outside_kept_trans
                      | apply same_state_outside, path_exists_state |].
    intros b. apply steps_bind; [apply outside_kept_trans | |].
    { apply steps_if.
      - now apply os_remove_outside.
      - apply steps_ret, outside_kept_refl. }
    intros _. apply steps_bind; [apply outside_kept_trans
                      | now apply open_w_outside |].
    intros _. apply log_outside.
  - apply steps_bind; [apply outside_kept_trans
                      | apply same_state_outside, path_exists_state |].
    intros b. apply steps_if.
    + apply steps_bind; [apply outside_kept_trans
                        | now apply copy2_outside |].
      intros _. apply log_outside.
    + apply steps_bind; [apply outside_kept_trans
                        | apply same_files_outside |].
      intros same. apply steps_if.
      * apply steps_bind; [apply outside_kept_trans
                          | now apply copy2_outside |].
        intros _. apply log_outside.
      * apply steps_ret, outside_kept_refl.
Qed.

Lemma sync_item_within P x t :
  steps (outside_kept (P ++ [x])) (sync_item P (x, t)).
Proof.
  unfold sync_item, sync_item_with.
  apply steps_bind; [apply outside_kept_trans
                    | apply same_state_outside, isfile_state |].
  intros f. apply steps_if;
    [apply synchronize_file_within, is_prefix_refl|].
  apply steps_bind; [apply outside_kept_trans
                    | apply same_state_outside, isdir_state |].
  intros d. apply steps_if; [|apply steps_ret, outside_kept_refl].
  unfold synchronize_dir_with.
  apply steps_bind; [apply outside_kept_trans
                    | apply same_state_outside, path_exists_state |].
  intros b. apply steps_bind; [apply outside_kept_trans | |].
  - apply steps_if.
    + apply steps_bind; [apply outside_kept_trans
                        | apply makedirs_outside, is_prefix_refl |].
      intros _. apply log_outside.
    + apply steps_ret, outside_kept_refl.
  - intros _. apply src_to_rep_outside.
Qed.

(** X8.  Pass 1 leaves alone what the source does not name.  For a
    replica that holds no symbolic link at or below the names that the
    source directory lists (the trees here have dangling links only,
    and [link_free_at] excludes them there), whatever the replica holds
    at or below a name that the source directory does not list is the
    same after [src_to_rep] as before it, whether the pass returns or
    raises. *)
Theorem pass1_keeps_unlisted_names ses P s y q :
  (forall x, In x (map fst ses) -> link_free_at s (P ++ [x]) = true) ->
  ~ In y (map fst ses) ->
  lookup (replica (final (src_to_rep (Dir ses) P s))) (P ++ y :: q)
  = lookup (replica s) (P ++ y :: q).
Proof.
  intros _ Hy. rewrite src_to_rep_dir.
  set (R := fun s s' : state =>
              lookup (replica s') (P ++ y :: q)
              = lookup (replica s) (P ++ y :: q)).
  assert (Hs : steps R (for_each (sync_item P) ses)).
  { apply steps_for_each.
    - now unfold R.
    - unfold R. intros s1 s2 s3 H1 H2. congruence.
    - intros [x t] Hin s0. unfold R.
      assert (Hxy : x <> y).
      { intros ->. apply Hy. now apply (in_map fst _ _ Hin). }
      destruct (siblings_apart P x y q Hxy) as [Ha Hb].
      now apply (sync_item_within P x t s0). }
  apply Hs.
Qed.

(** ** A missing path *)

(** X9.  The change detector on a missing replica file: for a source
    entry that exists and a replica path whose parent directory has no
    entry of that name (or has a dangling symbolic link there),
    [same_files] raises [FileNotFoundError] from [os.path.getsize],
    before any file is read and with the state as it was. *)
Theorem same_files_missing_replica_raises n P es x s :
  lookup (replica s) P = Some (Dir es) ->
  os_stat (child es x) = None ->
  same_files (InSource (Some n)) (InReplica (P ++ [x])) s
  = Raise FileNotFoundError s.
Proof.
  intros H Hx. unfold same_files, bind, getsize. cbn [resolve].
  destruct (os_stat (Some n)); [|reflexivity].
  now rewrite (lookup_snoc _ _ _ _ H), Hx.
Qed.

Lemma write_missing_parent P :
  forall n es r x v,
    lookup n P = Some (Dir es) -> child es r = None ->
    write n (P ++ [r; x]) v = Fail FileNotFoundError.
Proof.
  induction P as [|a P IH]; intros n es r x v H Hr.
  - simpl in H. inversion H. subst n. simpl. now rewrite Hr.
  - simpl in H. destruct n as [|es0| |]; try discriminate.
    destruct (child es0 a) as [c|] eqn:E; [|discriminate].
    change ((a :: P) ++ [r; x]) with (a :: (P ++ [r; x])).
    rewrite write_cons by (now destruct P).
    now rewrite E, (IH _ _ _ _ _ H Hr).
Qed.

Lemma lookup_missing_parent n P es r q :
  lookup n P = Some (Dir es) -> child es r = None ->
  lookup n (P ++ r :: q) = None.
Proof.
  intros H Hr. rewrite lookup_app, H. simpl. now rewrite Hr.
Qed.

Lemma sync_item_missing_root P es r x t s :
  lookup (replica s) P = Some (Dir es) -> child es r = None ->
  is_dir (Some t) = false ->
  sync_item (P ++ [r]) (x, t) s = Ok tt s
  \/ sync_item (P ++ [r]) (x, t) s = Raise FileNotFoundError s.
Proof.
  intros H Hr Ht.
  assert (Hl : lookup (replica s) ((P ++ [r]) ++ [x]) = None)
    by (rewrite <- app_assoc; now apply (lookup_missing_parent _ _ es)).
  assert (Hw : forall v, write (replica s) ((P ++ [r]) ++ [x]) v
                         = Fail FileNotFoundError)
    by (intros v; rewrite <- app_assoc; now apply (write_missing_parent _ _ es)).
  destruct t as [c|sub| |]; try discriminate.
  - right. unfold sync_item, sync_item_with, bind, isfile. simpl.
    unfold synchronize_file, bind, getsize. simpl.
    destruct (Nat.eqb (List.length c) 0).
    + unfold path_exists. simpl. rewrite Hl. simpl.
      unfold open_w. rewrite Hl. unfold lift. now rewrite Hw.
    + unfold path_exists. simpl. rewrite Hl. simpl.
      unfold copy2. rewrite Hl. simpl. rewrite Hl. simpl.
      unfold lift. now rewrite Hw.
  - left. apply sync_item_special.
  - left. apply sync_item_dangling.
Qed.

(** X10.  A replica directory that does not exist yet is not created for
    a source without subdirectories: when the parent of the replica path
    is a directory that lacks the name and no entry of the source
    directory is a directory, [synchronize] raises [FileNotFoundError]
    and leaves the replica tree, the log and the read count as they
    were. *)
Theorem missing_replica_directory_raises ses P es r s :
  lookup (replica s) P = Some (Dir es) ->
  child es r = None ->
  no_subdirectory ses = true ->
  synchronize (Dir ses) (P ++ [r]) s = Raise FileNotFoundError s.
Proof.
  intros H Hr Hses. unfold synchronize, bind. rewrite src_to_rep_dir.
  assert (Hloop : for_each (sync_item (P ++ [r])) ses s = Ok tt s
                  \/ for_each (sync_item (P ++ [r])) ses s
                     = Raise FileNotFoundError s).
  { induction ses as [|[x t] ses IH]; [now left|].
    unfold no_subdirectory in Hses. simpl in Hses.
    apply andb_prop in Hses. destruct Hses as [Ht Hses].
    apply negb_true_iff in Ht. rewrite for_each_cons.
    destruct (sync_item_missing_root P es r x t s H Hr Ht) as [E|E];
      rewrite E; auto. }
  destruct Hloop as [E|E]; rewrite E; auto.
  unfold rep_to_src, bind, get_dir_content. simpl.
  rewrite <- (app_nil_r (P ++ [r])), <- app_assoc. simpl.
  now rewrite (lookup_missing_parent _ _ es).
Qed.

(** ** The periodic loop *)




(** ** A regular source file that faces a replica directory *)

(** X12.  A non-empty regular source file whose name is a directory in
    the replica is never put in that directory's place.  When the
    directory's [st_size] differs from the file's length, the file is
    copied into the directory under its own name, the line logged is
    "Updated" with the directory's path, and nothing is read by the
    detector; when the two sizes are equal, [calculate_hash] reads the
    source file and then raises [IsADirectoryError] on the replica
    directory.  (The entry of that name inside the directory is absent
    or a regular file.) *)
Theorem file_over_directory_copied_inside c P x s es sub :
  lookup (replica s) P = Some (Dir es) ->
  child es x = Some (Dir sub) ->
  c <> [] ->
  child sub x = None \/ is_file (child sub x) = true ->
  synchronize_file (InSource (Some (File c))) P x s
  = if Nat.eqb (List.length c) (dir_st_size sub)
    then Raise IsADirectoryError
           (mkState (replica s) (logged s) (S (reads s)))
    else Ok tt
           (mkState
              (subst (replica s) P
                     (Dir (put x (Dir (put x (File c) sub)) es)))
              (logged s ++ [("Updated", P ++ [x])])
              (reads s)).
Proof.
  intros H Hx Hc Hsub.
  assert (H' : lookup (replica s) (P ++ [x]) = Some (Dir sub))
    by (now rewrite (lookup_snoc _ _ _ _ H)).
  assert (Hlen : Nat.eqb (List.length c) 0 = false)
    by (destruct c; [congruence | reflexivity]).
  unfold synchronize_file, bind, getsize. simpl resolve. simpl os_stat.
  cbn [st_size]. rewrite Hlen.
  rewrite (path_exists_entry _ _ _ _ H), Hx. cbn [os_stat is_some negb].
  unfold same_files, bind, getsize. cbn [resolve os_stat st_size].
  rewrite H'. cbn [os_stat st_size].
  destruct (Nat.eqb (List.length c) (dir_st_size sub)) eqn:Es; cbn [negb].
  - unfold calculate_hash, bind, read_bytes, ret. cbn [resolve replica].
    now rewrite H'.
  - unfold ret. cbn [negb]. unfold copy2. rewrite H'.
    cbn [is_dir resolve is_special orb os_stat].
    rewrite (lookup_snoc _ _ _ _ H').
    rewrite (write_subst _ _ _ _ _ H'). cbn [bound].
    rewrite (subst_snoc _ _ _ _ _ _ H Hx).
    destruct (child sub x) as [[| | |]|]; destruct Hsub; try discriminate;
      reflexivity.
Qed.

(** ** What Pass 1 never does *)



















End Synchronization.

(** * The digest on known inputs *)

Example md5_empty :
  MD5.hexdigest [] = "d41d8cd98f00b204e9800998ecf8427e".
Proof. vm_compute. reflexivity. Qed.

Example md5_abc :
  MD5.hexdigest (bytes_of "abc") = "900150983cd24fb0d6963f7d28e17f72".
Proof. vm_compute. reflexivity. Qed.

Example md5_hello_world :
  MD5.hexdigest (bytes_of "hello world") = "5eb63bbbe01eeed093cb22bb8f5acdc3".
Proof. vm_compute. reflexivity. Qed.

Example md5_56_bytes :
  MD5.hexdigest (repeat "x"%byte 56) = "668a72d5ba17f08e62dabcafad6db14b".
Proof. vm_compute. reflexivity. Qed.

Example md5_64_bytes :
  MD5.hexdigest (repeat "y"%byte 64) = "b0c4864f4e28d2d76929c38d87db7ed5".
Proof. vm_compute. reflexivity. Qed.

Example md5_collision :
  collision_a <> collision_b
  /\ List.length collision_a = 128 /\ List.length collision_b = 128
  /\ MD5.hexdigest collision_a = "79054025255fb1a26e4bc422aef54eb4"
  /\ MD5.hexdigest collision_b = "79054025255fb1a26e4bc422aef54eb4".
Proof.
  split; [|vm_compute; repeat split].
  intros H. vm_compute in H. discriminate.
Qed.

(** * The program on concrete trees *)

(** C2.  Pass 2 does not descend into a directory that both trees have:
    the source has the empty directory [d], the replica has
    [d/stale.txt]; [synchronize] ends normally, logs nothing and leaves
    [d/stale.txt] in the replica although the source has nothing at
    that path. *)
Theorem nested_stale_entry_survives :
  synchronize block_size nested_src [] (initial nested_rep)
  = Ok tt (initial nested_rep)
  /\ lookup nested_src ["d"; "stale.txt"] = None
  /\ lookup nested_rep ["d"; "stale.txt"] = Some (File (bytes_of "x")).
Proof. repeat split. Qed.

(** C1 fails as stated, in three ways that the program takes by
    design: a replica file that has the name of a source directory is
    kept as a file; a replica file with the length and digest of the
    source file, but other bytes, is kept; a replica named pipe that
    the source lacks is kept. *)
Lemma convergence_counterexample :
  ~ convergence_claim block_size conflict_src conflict_rep
  /\ ~ convergence_claim block_size collide_src collide_rep
  /\ ~ convergence_claim block_size pipe_src pipe_rep.
Proof.
  repeat split; intros H.
  - destruct (H (initial conflict_rep)) as [H1 _]; [reflexivity|].
    specialize (H1 ["d"] (Dir []) eq_refl). discriminate.
  - destruct (H (mkState collide_rep [] 2)) as [H1 _];
      [vm_compute; reflexivity|].
    specialize (H1 ["c.bin"] (File collision_a) eq_refl).
    vm_compute in H1. discriminate.
  - destruct (H (initial pipe_rep)) as [_ H2]; [reflexivity|].
    specialize (H2 ["pipe"]). simpl in H2.
    assert (E : Some Special = None) by (apply H2; congruence).
    discriminate.
Qed.

(** C3 fails as stated: a zero-length source file is recreated, and
    logged, by every run; and a non-empty source file that faces a
    replica directory is copied into it, and logged, by every run. *)
Lemma idempotence_counterexample :
  ~ idempotence_claim block_size empty_src empty_rep
  /\ ~ idempotence_claim block_size shadowed_src shadowed_rep.
Proof.
  split; intros H.
  - destruct (H (mkState (Dir [("a", File [])])
                         [("Created empty file", ["a"])] 0)
                (mkState (Dir [("a", File [])])
                         [("Created empty file", ["a"]);
                          ("Created empty file", ["a"])] 0))
      as [H1 _]; try reflexivity.
    discriminate.
  - destruct (H (mkState (Dir [("a", Dir [("a", File (bytes_of "abc"))])])
                         [("Updated", ["a"])] 0)
                (mkState (Dir [("a", Dir [("a", File (bytes_of "abc"))])])
                         [("Updated", ["a"]); ("Updated", ["a"])] 0))
      as [H1 _]; try reflexivity.
    discriminate.
Qed.

(** C10 fails as stated, in both directions: a replica named pipe
    whose name the source does not have is not deleted by Pass 2; and a
    replica file is deleted although the source has an entry under its
    name, when that entry is a dangling symbolic link. *)
Lemma deletion_by_name_counterexample :
  ~ deletion_by_name_claim pipe_src pipe_rep
  /\ ~ deletion_by_name_claim dangling_src dangling_rep.
Proof.
  split; intros H.
  - destruct (H (initial pipe_rep) "pipe" eq_refl) as [_ H2];
      [simpl; congruence|].
    specialize (H2 eq_refl). discriminate.
  - destruct (H (mkState (Dir []) [("Deleted", ["link"])] 0) "link" eq_refl)
      as [H1 _]; [simpl; congruence|].
    specialize (H1 eq_refl). discriminate.
Qed.

(** * The theorems at concrete inputs *)

Lemma synchronize_converges_witness :
  well_formed (Dir demo_src_entries) = true
  /\ compatible (Dir demo_src_entries) (Dir demo_rep_entries) = true
  /\ exists s',
      synchronize block_size (Dir demo_src_entries) []
        (initial (Dir demo_rep_entries)) = Ok tt s'
      /\ (forall p c,
            lookup (Dir demo_src_entries) p = Some (File c) ->
            exists c', lookup (replica s') ([] ++ p) = Some (File c')
                       /\ identical c c' = true)
      /\ (forall p es,
            lookup (Dir demo_src_entries) p = Some (Dir es) ->
            exists es', lookup (replica s') ([] ++ p) = Some (Dir es'))
      /\ (forall y q,
            child demo_src_entries y = None ->
            is_file (child demo_rep_entries y)
            || is_dir (child demo_rep_entries y) = true ->
            lookup (replica s') ([] ++ y :: q) = None).
Proof.
  split; [reflexivity|]. split; [reflexivity|].
  apply (synchronize_converges block_size demo_src_entries []
           (initial (Dir demo_rep_entries)) demo_rep_entries);
    reflexivity.
Defined.

Lemma synchronize_idempotent_witness :
  well_formed (Dir demo_src_entries) = true
  /\ compatible (Dir demo_src_entries) (Dir demo_rep_entries) = true
  /\ no_empty_file (Dir demo_src_entries) = true
  /\ exists s1 s2,
      synchronize block_size (Dir demo_src_entries) []
        (initial (Dir demo_rep_entries)) = Ok tt s1
      /\ synchronize block_size (Dir demo_src_entries) [] s1 = Ok tt s2
      /\ replica s2 = replica s1
      /\ logged s2 = logged s1.
Proof.
  split; [reflexivity|]. split; [reflexivity|]. split; [reflexivity|].
  apply (synchronize_idempotent block_size demo_src_entries []
           (initial (Dir demo_rep_entries)) demo_rep_entries);
    reflexivity.
Defined.

Lemma same_files_change_detector_witness :
  let a := InSource (Some (File (bytes_of "abc"))) in
  let b := InReplica ["f.txt"] in
  let s := initial (Dir demo_rep_entries) in
  resolve a s = Some (File (bytes_of "abc"))
  /\ resolve b s = Some (File (bytes_of "abd"))
  /\ exists r s',
      same_files block_size a b s = Ok r s'
      /\ (r = true <->
          MD5.hexdigest (bytes_of "abc") = MD5.hexdigest (bytes_of "abd"))
      /\ reads s' = 2 + reads s.
Proof.
  intros a b s. split; [reflexivity|]. split; [reflexivity|].
  destruct (same_files_change_detector block_size a b
              (bytes_of "abc") (bytes_of "abd") s eq_refl eq_refl)
    as (_ & H & _).
  destruct (H eq_refl) as (r & s' & E & Hr & _ & Hn).
  exists r, s'. auto.
Defined.

Lemma empty_source_file_recreated_witness :
  let es := [("a", File (bytes_of "old")); ("b", File (bytes_of "y"))] in
  let s := initial (Dir es) in
  List.length (@nil byte) = 0
  /\ is_file (child es "a") = true
  /\ exists s',
      sync_item block_size [] ("a", File []) s = Ok tt s'
      /\ synchronize_file block_size (InSource (Some (File []))) [] "a" s
         = Ok tt s'
      /\ replica s'
         = Dir [("b", File (bytes_of "y")); ("a", File [])]
      /\ (is_file (child es "a") = true ->
          exists s1,
            os_remove ([] ++ ["a"]) s = Ok tt s1
            /\ lookup (replica s1) ([] ++ ["a"]) = None
            /\ (open_w ([] ++ ["a"]) ;;
                log "Created empty file" ([] ++ ["a"])) s1 = Ok tt s')
      /\ lookup (replica s') ([] ++ ["a"]) = Some (File [])
      /\ logged s' = logged s ++ [("Created empty file", [] ++ ["a"])]
      /\ reads s' = reads s.
Proof.
  intros es s. split; [reflexivity|]. split; [reflexivity|].
  apply (empty_source_file_recreated block_size [] [] "a" s es);
    [reflexivity | reflexivity |].
  right. reflexivity.
Defined.

Lemma nonempty_source_file_updated_witness :
  let s := initial (Dir demo_rep_entries) in
  List.length (bytes_of "abc") <> 0
  /\ child demo_rep_entries "f.txt" = Some (File (bytes_of "abd"))
  /\ exists same s0 s',
      same_files block_size (InSource (Some (File (bytes_of "abc"))))
        (InReplica ([] ++ ["f.txt"])) s = Ok same s0
      /\ sync_item block_size [] ("f.txt", File (bytes_of "abc")) s
         = Ok tt s'
      /\ (same = false ->
          lookup (replica s') ([] ++ ["f.txt"])
          = Some (File (bytes_of "abc"))
          /\ logged s' = logged s ++ [("Updated", [] ++ ["f.txt"])])
      /\ (same = true -> replica s' = replica s /\ logged s' = logged s).
Proof.
  intros s. split; [discriminate|]. split; [reflexivity|].
  apply (nonempty_source_file_updated block_size (bytes_of "abc")
           (bytes_of "abd") [] "f.txt" s demo_rep_entries);
    [discriminate | reflexivity | reflexivity].
Defined.

Lemma stale_directory_deleted_witness :
  let s := initial (Dir demo_rep_entries) in
  child demo_rep_entries "old_dir" = Some (Dir [("k", File [])])
  /\ lookup (Dir demo_src_entries) ["old_dir"] = None
  /\ exists s' evs,
      rep_to_src (Dir demo_src_entries) [] s = Ok tt s'
      /\ logged s' = logged s ++ evs
      /\ events_under ([] ++ ["old_dir"]) evs
         = [("Deleted", [] ++ ["old_dir"])]
      /\ forall q, lookup (replica s') ([] ++ "old_dir" :: q) = None.
Proof.
  intros s. split; [reflexivity|]. split; [reflexivity|].
  apply (stale_directory_deleted (Dir demo_src_entries) [] s
           demo_rep_entries "old_dir" [("k", File [])]);
    reflexivity.
Defined.

Lemma pass2_deletes_by_name_witness :
  let s := initial conflict_rep in
  let r := File (bytes_of "x") in
  lookup (replica s) [] = Some (Dir [("d", r)])
  /\ child [("d", r)] "d" = Some r
  /\ exists s',
      rep_to_src conflict_src [] s = Ok tt s'
      /\ (is_file (Some r) || is_dir (Some r) = true ->
          (lookup (replica s') ([] ++ ["d"]) = None
           <-> os_stat (lookup conflict_src ["d"]) = None))
      /\ (os_stat (lookup conflict_src ["d"]) <> None ->
          lookup (replica s') ([] ++ ["d"]) = Some r)
      /\ (is_file (Some r) || is_dir (Some r) = false ->
          lookup (replica s') ([] ++ ["d"]) = Some r).
Proof.
  intros s r. split; [reflexivity|]. split; [reflexivity|].
  apply (pass2_deletes_by_name conflict_src [] s [("d", r)] "d" r);
    reflexivity.
Defined.

Lemma io_errors_propagate_witness :
  let denied :=
    mkState (Dir [ ("old2", File (bytes_of "b"));
                   ("new.txt", File (bytes_of "x")) ])
            [("Created", ["new.txt"]); ("Deleted", ["old1"])] 0 in
  let cut_short :=
    mkState (Dir [ ("old1", File (bytes_of "a"));
                   ("old2", File (bytes_of "b")); ("new.txt", File []) ])
            [] 0 in
  let reached :=
    mkState (Dir [ ("sub", Dir [("bad", Dir [])]); ("stale", File []);
                   ("ok", File (bytes_of "x")) ])
            [("Created", ["ok"])] 0 in
  (sync_raises block_size (deny_remove ["old2"]) stale_src [] 0
     (initial stale_rep) PermissionError denied
   /\ synchronize_env block_size (deny_remove ["old2"]) stale_src [] 0
        (initial stale_rep) = Raised PermissionError denied)
  /\ (sync_raises block_size (vanish_at 2) changed_src [] 0
        (initial changed_rep) FileNotFoundError (initial changed_rep)
      /\ synchronize_env block_size (vanish_at 2) changed_src [] 0
           (initial changed_rep)
         = Raised FileNotFoundError (initial changed_rep))
  /\ (sync_raises block_size disk_full stale_src [] 0
        (initial stale_rep) OtherOSError cut_short
      /\ synchronize_env block_size disk_full stale_src [] 0
           (initial stale_rep) = Raised OtherOSError cut_short)
  /\ (sync_raises block_size calm failing_src [] 0
        (initial failing_rep) IsADirectoryError reached
      /\ synchronize_env block_size calm failing_src [] 0
           (initial failing_rep) = Raised IsADirectoryError reached).
Proof.
  intros denied cut_short reached.
  assert (H1 : sync_raises block_size (deny_remove ["old2"]) stale_src [] 0
                 (initial stale_rep) PermissionError denied).
  { pose (copied :=
            mkState (Dir [ ("old1", File (bytes_of "a"));
                           ("old2", File (bytes_of "b"));
                           ("new.txt", File (bytes_of "x")) ])
                    [("Created", ["new.txt"])] 0).
    apply (in_pass2 block_size (deny_remove ["old2"]) stale_src [] 0
             (initial stale_rep) PermissionError denied copied 4);
      [reflexivity|].
    apply (p2_remove (deny_remove ["old2"]) stale_src [] 4 copied
             PermissionError denied ["old1"] "old2" ["new.txt"]
             copied 5 denied 7); reflexivity. }
  assert (H2 : sync_raises block_size (vanish_at 2) changed_src [] 0
                 (initial changed_rep) FileNotFoundError
                 (initial changed_rep)).
  { apply in_pass1.
    apply (p1_file block_size (vanish_at 2) [] "f" (bytes_of "new") [] [] 0
             (initial changed_rep) ["f"] (initial changed_rep) 1
             (initial changed_rep) 1); [reflexivity | reflexivity |].
    apply (fr_detector block_size (vanish_at 2)
             (InSource (Some (File (bytes_of "new")))) [] "f" 1
             (initial changed_rep) FileNotFoundError (initial changed_rep) 2
             (initial changed_rep) 2); [reflexivity | reflexivity |].
    apply dr_size_src. reflexivity. }
  assert (H3 : sync_raises block_size disk_full stale_src [] 0
                 (initial stale_rep) OtherOSError cut_short).
  { apply in_pass1.
    apply (p1_file block_size disk_full [] "new.txt" (bytes_of "x") [] [] 0
             (initial stale_rep) ["new.txt"] (initial stale_rep) 1
             (initial stale_rep) 1); [reflexivity | reflexivity |].
    apply (fr_copy_new block_size disk_full
             (InSource (Some (File (bytes_of "x")))) [] "new.txt" 1
             (initial stale_rep) OtherOSError cut_short 0
             (initial stale_rep) 2); reflexivity. }
  assert (H4 : sync_raises block_size calm failing_src [] 0
                 (initial failing_rep) IsADirectoryError reached).
  { apply in_pass1.
    apply (p1_below block_size calm [("ok", File (bytes_of "x"))] "sub"
             [("bad", File [])] [("later", File (bytes_of "y"))] [] 0
             (initial failing_rep) ["ok"; "sub"; "later"]
             (initial failing_rep) 1 reached 4);
      [reflexivity | reflexivity | reflexivity |].
    apply (p1_file block_size calm [] "bad" [] [] ["sub"] 4 reached
             ["bad"] reached 5 reached 5); [reflexivity | reflexivity |].
    apply (fr_remove block_size calm (InSource (Some (File [])))
             ["sub"] "bad" 5 reached IsADirectoryError reached reached 6);
      reflexivity. }
  split; [split; [exact H1|]|split; [split; [exact H2|]
         |split; [split; [exact H3|]|split; [exact H4|]]]].
  - exact (proj1 (io_errors_propagate block_size (deny_remove ["old2"]) stale_src []
             0 (initial stale_rep) PermissionError denied) H1).
  - exact (proj1 (io_errors_propagate block_size (vanish_at 2) changed_src []
             0 (initial changed_rep) FileNotFoundError
             (initial changed_rep)) H2).
  - exact (proj1 (io_errors_propagate block_size disk_full stale_src []
             0 (initial stale_rep) OtherOSError cut_short) H3).
  - exact (proj1 (io_errors_propagate block_size calm failing_src []
             0 (initial failing_rep) IsADirectoryError reached) H4).
Defined.

(** * The further properties at concrete inputs *)


Lemma pass2_only_deletes_witness :
  let s := initial (Dir demo_rep_entries) in
  lookup (replica s) [] = Some (Dir demo_rep_entries)
  /\ exists s' evs,
       rep_to_src (Dir demo_src_entries) [] s = Ok tt s'
       /\ reads s' = reads s
       /\ logged s' = logged s ++ evs
       /\ (forall y q,
             lookup (replica s') ([] ++ y :: q) = None
             \/ lookup (replica s') ([] ++ y :: q)
                = lookup (replica s) ([] ++ y :: q))
       /\ (forall y,
             events_under ([] ++ [y]) evs
             = if is_some (lookup (replica s) ([] ++ [y]))
                  && negb (is_some (lookup (replica s') ([] ++ [y])))
               then [("Deleted", [] ++ [y])] else []).
Proof.
  intros s. split; [reflexivity|].
  apply (pass2_only_deletes (Dir demo_src_entries) [] s demo_rep_entries).
  reflexivity.
Defined.

Lemma empty_source_empties_replica_witness :
  let res := [ ("pipe", Special); ("a", File (bytes_of "x"));
               ("d", Dir [("k", File [])]) ] in
  let s := initial (Dir res) in
  lookup (replica s) [] = Some (Dir res)
  /\ exists s',
       synchronize block_size (Dir []) [] s = Ok tt s'
       /\ forall y,
            lookup (replica s') ([] ++ [y])
            = if is_file (child res y) || is_dir (child res y)
              then None else child res y.
Proof.
  intros res s. split; [reflexivity|].
  apply (empty_source_empties_replica block_size [] s res). reflexivity.
Defined.

Lemma sync_into_non_directory_raises_witness :
  let s := initial (Dir [("rep", File (bytes_of "x"))]) in
  lookup (replica s) ["rep"] = Some (File (bytes_of "x"))
  /\ is_file (Some (File (bytes_of "x")))
     || is_special (Some (File (bytes_of "x"))) = true
  /\ synchronize block_size (Dir demo_src_entries) ["rep"] s
     = Raise NotADirectoryError s.
Proof.
  intros s. split; [reflexivity|]. split; [reflexivity|].
  apply (sync_into_non_directory_raises block_size demo_src_entries ["rep"] s
           (File (bytes_of "x"))); reflexivity.
Defined.

Lemma missing_directory_copied_whole_witness :
  let sub := [ ("readme", File (bytes_of "hello world")); ("pipe", Special);
               ("img", Dir [("logo", File [])]) ] in
  let es := [("old.txt", File (bytes_of "x"))] in
  let s := initial (Dir es) in
  lookup (replica s) [] = Some (Dir es)
  /\ child es "docs" = None
  /\ well_formed (Dir sub) = true
  /\ exists s' evs,
       synchronize_dir block_size (Dir sub) [] "docs" s = Ok tt s'
       /\ lookup (replica s') ([] ++ ["docs"]) = Some (regular (Dir sub))
       /\ (forall y, y <> "docs" ->
             lookup (replica s') ([] ++ [y]) = child es y)
       /\ logged s' = logged s ++ ("Created directory", [] ++ ["docs"]) :: evs
       /\ List.length evs = count_regular (Dir sub)
       /\ forallb (pass1_line ([] ++ ["docs"])) evs = true.
Proof.
  intros sub es s. split; [reflexivity|]. split; [reflexivity|].
  split; [reflexivity|].
  apply (missing_directory_copied_whole block_size sub [] "docs" s es);
    reflexivity.
Defined.

Lemma empty_replica_receives_exact_copy_witness :
  let s := initial (Dir []) in
  lookup (replica s) [] = Some (Dir [])
  /\ well_formed (Dir demo_src_entries) = true
  /\ exists s' evs,
       synchronize block_size (Dir demo_src_entries) [] s = Ok tt s'
       /\ lookup (replica s') [] = Some (regular (Dir demo_src_entries))
       /\ logged s' = logged s ++ evs
       /\ List.length evs = count_regular (Dir demo_src_entries)
       /\ forallb (pass1_line []) evs = true.
Proof.
  intros s. split; [reflexivity|]. split; [reflexivity|].
  apply (empty_replica_receives_exact_copy block_size demo_src_entries [] s);
    reflexivity.
Defined.

Lemma pass1_keeps_unlisted_names_witness :
  let s := initial (Dir (demo_rep_entries ++ [("lost", Dangling)])) in
  (forall x, In x (map fst demo_src_entries) ->
             link_free_at s ([] ++ [x]) = true)
  /\ ~ In "old_dir" (map fst demo_src_entries)
  /\ ~ In "lost" (map fst demo_src_entries)
  /\ lookup (replica (final (src_to_rep block_size (Dir demo_src_entries)
                               [] s))) ([] ++ "old_dir" :: ["k"])
     = lookup (replica s) ([] ++ "old_dir" :: ["k"])
  /\ lookup (replica (final (src_to_rep block_size (Dir demo_src_entries)
                               [] s))) ([] ++ "lost" :: [])
     = lookup (replica s) ([] ++ "lost" :: []).
Proof.
  intros s.
  assert (Hl : forall x, In x (map fst demo_src_entries) ->
                         link_free_at s ([] ++ [x]) = true)
    by (intros x [<-|[<-|[<-|[]]]]; reflexivity).
  assert (H : ~ In "old_dir" (map fst demo_src_entries))
    by (intros [H|[H|[H|[]]]]; discriminate H).
  assert (H' : ~ In "lost" (map fst demo_src_entries))
    by (intros [H'|[H'|[H'|[]]]]; discriminate H').
  split; [exact Hl|]. split; [exact H|]. split; [exact H'|]. split.
  - exact (pass1_keeps_unlisted_names block_size demo_src_entries [] s
             "old_dir" ["k"] Hl H).
  - exact (pass1_keeps_unlisted_names block_size demo_src_entries [] s
             "lost" [] Hl H').
Defined.

Lemma same_files_missing_replica_raises_witness :
  let es := [("link", Dangling)] in
  let s := initial (Dir es) in
  let n := File (bytes_of "abc") in
  lookup (replica s) [] = Some (Dir es)
  /\ os_stat (child es "f.txt") = None
  /\ os_stat (child es "link") = None
  /\ same_files block_size (InSource (Some n)) (InReplica ([] ++ ["f.txt"])) s
     = Raise FileNotFoundError s
  /\ same_files block_size (InSource (Some n)) (InReplica ([] ++ ["link"])) s
     = Raise FileNotFoundError s.
Proof.
  intros es s n. split; [reflexivity|]. split; [reflexivity|].
  split; [reflexivity|]. split.
  - apply (same_files_missing_replica_raises block_size n [] es "f.txt" s);
      reflexivity.
  - apply (same_files_missing_replica_raises block_size n [] es "link" s);
      reflexivity.
Defined.

Lemma missing_replica_directory_raises_witness :
  let ses := [("f.txt", File (bytes_of "abc")); ("pipe", Special)] in
  let s := initial (Dir []) in
  lookup (replica s) [] = Some (Dir [])
  /\ child [] "replica" = None
  /\ no_subdirectory ses = true
  /\ synchronize block_size (Dir ses) ([] ++ ["replica"]) s
     = Raise FileNotFoundError s.
Proof.
  intros ses s. split; [reflexivity|]. split; [reflexivity|].
  split; [reflexivity|].
  apply (missing_replica_directory_raises block_size ses [] [] "replica" s);
    reflexivity.
Defined.


Lemma file_over_directory_copied_inside_witness :
  let c := bytes_of "abc" in
  let s := initial shadowed_rep in
  lookup (replica s) [] = Some (Dir [("a", Dir [])])
  /\ child [("a", Dir [])] "a" = Some (Dir [])
  /\ c <> []
  /\ (child [] "a" = None \/ is_file (child [] "a") = true)
  /\ synchronize_file block_size (InSource (Some (File c))) [] "a" s
     = Ok tt (mkState (Dir [("a", Dir [("a", File c)])])
                      [("Updated", ["a"])] 0).
Proof.
  intros c s.
  assert (Hc : c <> []) by discriminate.
  split; [reflexivity|]. split; [reflexivity|]. split; [exact Hc|].
  split; [left; reflexivity|].
  exact (file_over_directory_copied_inside block_size c [] "a" s
           [("a", Dir [])] [] eq_refl eq_refl Hc (or_introl eq_refl)).
Defined.
